(** * ad-log-backend: the RSS cache, its scheduler and the two AI proxies

    A shallow embedding of [src/server.js].  The server keeps one
    module-level [cache] object, refreshes it from a fixed list of feeds
    ([fetchRSSFeeds]), decides when to refresh ([shouldFetchToday],
    [scheduleNextFetch]) and proxies a summarisation and a text-to-speech
    call.  Everything the program obtains from outside (the network, the
    clock, the time-zone database, the file system, the digest) enters the
    model as an explicit argument, so every handler is a function from the
    state before the request to the response and the state after it.

    Part I holds the embedding, Part II the properties the
    specification claims, Part III further properties of the program. *)

From stdpp Require Import base gmap strings list.
From Stdlib Require Import ZArith Lia Ascii String List DecimalString Sorted.
Import ListNotations.
Local Open Scope Z_scope.

(* ================================================================== *)
(** * Part I: the embedding                                            *)
(* ================================================================== *)

(** ** Completions: [try]/[catch] and rejected promises

    A JavaScript computation either completes normally or throws.  The
    thrown value is an [Error]; the handlers only ever read its
    [message]. *)

Inductive Completion (A : Type) : Type :=
| Normal (a : A)
| Throw (message : string).
Arguments Normal {A} a.
Arguments Throw {A} message.

Definition bindC {A B} (c : Completion A) (k : A -> Completion B) : Completion B :=
  match c with
  | Normal a => k a
  | Throw e => Throw e
  end.

(** [try { body } catch (err) { handler(err) }] *)
Definition try_catch {A} (body : Completion A) (handler : string -> Completion A)
  : Completion A :=
  match body with
  | Normal a => Normal a
  | Throw e => handler e
  end.

(** The handlers are written with stdpp's monad notation
    [x ← c; k]: the rest [k] runs only when [c] completes normally. *)
#[global] Instance Completion_ret : MRet Completion := @Normal.
#[global] Instance Completion_bind : MBind Completion :=
  fun A B k c => bindC c k.

(** ** Time values and the date algorithms of ECMA-262

    A [Date] holds a time value: milliseconds since the epoch, here a [Z]
    (only valid dates occur: every [Date] of the program is built from the
    clock).  The functions below are the abstract operations of the
    standard, clause "Time Values and Time Range" and following, under
    their names there. *)

Module ES.

Definition msPerSecond : Z := 1000.
Definition msPerMinute : Z := 60000.
Definition msPerHour : Z := 3600000.
Definition msPerDay : Z := 86400000.

Definition Day (t : Z) : Z := t / msPerDay.
Definition TimeWithinDay (t : Z) : Z := t mod msPerDay.

Definition DaysInYear (y : Z) : Z :=
  if negb (y mod 4 =? 0) then 365
  else if negb (y mod 100 =? 0) then 366
  else if negb (y mod 400 =? 0) then 365
  else 366.

Definition DayFromYear (y : Z) : Z :=
  365 * (y - 1970) + (y - 1969) / 4 - (y - 1901) / 100 + (y - 1601) / 400.

Definition TimeFromYear (y : Z) : Z := msPerDay * DayFromYear y.

(** The largest [y] with [TimeFromYear y <= t]: the estimate from the mean
    length of a year is off by at most one (see [YearFromTime_spec]). *)
Definition YearFromTime (t : Z) : Z :=
  let d := Day t in
  let y := 1970 + (d * 400) / 146097 in
  if d <? DayFromYear y then y - 1
  else if DayFromYear (y + 1) <=? d then y + 1
  else y.

Definition InLeapYear (t : Z) : Z :=
  if DaysInYear (YearFromTime t) =? 366 then 1 else 0.

Definition DayWithinYear (t : Z) : Z := Day t - DayFromYear (YearFromTime t).

Definition MonthFromTime (t : Z) : Z :=
  let d := DayWithinYear t in
  let L := InLeapYear t in
  if d <? 31 then 0
  else if d <? 59 + L then 1
  else if d <? 90 + L then 2
  else if d <? 120 + L then 3
  else if d <? 151 + L then 4
  else if d <? 181 + L then 5
  else if d <? 212 + L then 6
  else if d <? 243 + L then 7
  else if d <? 273 + L then 8
  else if d <? 304 + L then 9
  else if d <? 334 + L then 10
  else 11.

Definition DateFromTime (t : Z) : Z :=
  let d := DayWithinYear t in
  let L := InLeapYear t in
  match MonthFromTime t with
  | 0 => d + 1
  | 1 => d - 30
  | 2 => d - 58 - L
  | 3 => d - 89 - L
  | 4 => d - 119 - L
  | 5 => d - 150 - L
  | 6 => d - 180 - L
  | 7 => d - 211 - L
  | 8 => d - 242 - L
  | 9 => d - 272 - L
  | 10 => d - 303 - L
  | _ => d - 333 - L
  end.

Definition WeekDay (t : Z) : Z := (Day t + 4) mod 7.

Definition HourFromTime (t : Z) : Z := (t / msPerHour) mod 24.
Definition MinFromTime (t : Z) : Z := (t / msPerMinute) mod 60.
Definition SecFromTime (t : Z) : Z := (t / msPerSecond) mod 60.
Definition msFromTime (t : Z) : Z := t mod msPerSecond.

Definition MakeTime (hour min sec ms : Z) : Z :=
  hour * msPerHour + min * msPerMinute + sec * msPerSecond + ms.

(** Days from the start of year [ym] to the first of month [mn]. *)
Definition DaysBeforeMonth (ym mn : Z) : Z :=
  let L := if DaysInYear ym =? 366 then 1 else 0 in
  match mn with
  | 0 => 0
  | 1 => 31
  | 2 => 59 + L
  | 3 => 90 + L
  | 4 => 120 + L
  | 5 => 151 + L
  | 6 => 181 + L
  | 7 => 212 + L
  | 8 => 243 + L
  | 9 => 273 + L
  | 10 => 304 + L
  | _ => 334 + L
  end.

(** [MakeDay]: the day of the first of month [mn] of year [ym], plus
    [date - 1]; a [date] past the end of the month runs into the next. *)
Definition MakeDay (year month date : Z) : Z :=
  let ym := year + month / 12 in
  let mn := month mod 12 in
  DayFromYear ym + DaysBeforeMonth ym mn + date - 1.

Definition MakeDate (day time : Z) : Z := day * msPerDay + time.

End ES.

(** ** [Array.prototype.sort]

    The comparator returns a number or [NaN] ([None]); the sort reads
    [NaN] as [+0].  The standard fixes two things about the result: it is
    a permutation of the array, and for a comparator that is consistent
    on the elements of the array it is the stable sorted permutation.
    For any other comparator the order is left to the engine.  The sort
    itself is therefore a function of the host (below); this module
    holds what the standard says of it: [consistent], and [stable_sort],
    the stable sorted permutation, here computed by insertion from the
    right. *)

Module JSArray.
Section Sort.
Context {A : Type} (comparefn : A -> A -> option Z).

Definition SortCompare (x y : A) : Z :=
  match comparefn x y with
  | Some v => v
  | None => 0
  end.

(** A consistent comparator for the elements of [l]: the conditions of
    the clause on [Array.prototype.sort] (every element ties with itself,
    ties are symmetric and transitive, before and after are transitive)
    and, as its note takes for granted, [a] sorts before [b] exactly when
    [b] sorts after [a]. *)
Definition consistent (l : list A) : Prop :=
  forall a b c, In a l -> In b l -> In c l ->
    SortCompare a a = 0
    /\ (SortCompare a b = 0 -> SortCompare b a = 0)
    /\ (SortCompare a b = 0 -> SortCompare b c = 0 -> SortCompare a c = 0)
    /\ (SortCompare a b < 0 -> SortCompare b c < 0 -> SortCompare a c < 0)
    /\ (0 < SortCompare a b -> 0 < SortCompare b c -> 0 < SortCompare a c)
    /\ (SortCompare a b < 0 <-> 0 < SortCompare b a).

(** [x] stood before every element of [l]: it goes behind those that
    sort strictly before it and no further. *)
Fixpoint insert (x : A) (l : list A) : list A :=
  match l with
  | [] => [x]
  | y :: l' => if 0 <? SortCompare x y then y :: insert x l' else x :: l
  end.

Fixpoint stable_sort (l : list A) : list A :=
  match l with
  | [] => []
  | x :: l' => insert x (stable_sort l')
  end.

(** [stable_sort] rearranges: the evidence a host built on it shows for
    its sort. *)
Fixpoint insert_permutes (x : A) (l : list A) : Permutation (insert x l) (x :: l) :=
  match l with
  | [] => Permutation_refl [x]
  | y :: l' =>
      match 0 <? SortCompare x y as b
        return Permutation (if b then y :: insert x l' else x :: y :: l') (x :: y :: l')
      with
      | true => perm_trans (perm_skip y (insert_permutes x l')) (perm_swap x y l')
      | false => Permutation_refl (x :: y :: l')
      end
  end.

Fixpoint stable_sort_permutes (l : list A) : Permutation (stable_sort l) l :=
  match l with
  | [] => perm_nil A
  | x :: l' =>
      perm_trans (insert_permutes x (stable_sort l'))
                 (perm_skip x (stable_sort_permutes l'))
  end.

End Sort.
End JSArray.

(** ** The host: what the program takes from its runtime

    [LocalTZA t isUTC] is the offset of the server's own time zone, the
    implementation-defined operation of the standard: with [isUTC] the
    offset in force at the instant [t]; without it [t] is a local time
    value and the offset is the one that local time is read by (for a
    local time that a daylight-saving step skips or repeats, the offset
    before the step).
    [offsetNewYork t] is the offset of the zone "America/New_York" at the
    instant [t], as the runtime's time-zone database gives it;
    [Date_parse s] is the time value of [new Date(s)] for the date text of
    a feed item, [None] standing for [NaN] (an invalid date), which is what
    the empty text gives; [Array_sort] is the engine's
    [Array.prototype.sort], with what the standard fixes about it;
    [sha256_hex] is [crypto]'s digest and [cwd] the working directory of
    the process. *)

Class Host := {
  LocalTZA : Z -> bool -> Z;
  offsetNewYork : Z -> Z;
  Date_parse : string -> option Z;
  Date_parse_empty : Date_parse "" = None;
  Array_sort : forall A : Type, (A -> A -> option Z) -> list A -> list A;
  Array_sort_permutes :
    forall (A : Type) (comparefn : A -> A -> option Z) (l : list A),
      Permutation (Array_sort A comparefn l) l;
  Array_sort_consistent :
    forall (A : Type) (comparefn : A -> A -> option Z) (l : list A),
      JSArray.consistent comparefn l ->
      Array_sort A comparefn l = JSArray.stable_sort comparefn l;
  sha256_hex : string -> string;
  cwd : string;
}.
Arguments Array_sort {_ A} comparefn l.

(** ** Text of a date *)

Module DateText.
Import ES.

Definition digit (d : Z) : ascii :=
  match d mod 10 with
  | 0 => "0" | 1 => "1" | 2 => "2" | 3 => "3" | 4 => "4"
  | 5 => "5" | 6 => "6" | 7 => "7" | 8 => "8" | _ => "9"
  end%char.

Definition pad2 (n : Z) : string :=
  String (digit (n / 10)) (String (digit n) "").
Definition pad3 (n : Z) : string :=
  String (digit (n / 100)) (pad2 n).
Definition pad4 (n : Z) : string :=
  String (digit (n / 1000)) (pad3 n).
Definition pad6 (n : Z) : string :=
  String (digit (n / 100000)) (String (digit (n / 10000)) (pad4 n)).

(** [ToZeroPaddedDecimalString(n, 4)]: at least four digits. *)
Definition padYear (n : Z) : string :=
  if n <? 10000 then pad4 n
  else NilZero.string_of_uint (N.to_uint (Z.to_N n)).

Definition dayName (wd : Z) : string :=
  match wd with
  | 0 => "Sun" | 1 => "Mon" | 2 => "Tue" | 3 => "Wed"
  | 4 => "Thu" | 5 => "Fri" | _ => "Sat"
  end.

Definition monthName (m : Z) : string :=
  match m with
  | 0 => "Jan" | 1 => "Feb" | 2 => "Mar" | 3 => "Apr"
  | 4 => "May" | 5 => "Jun" | 6 => "Jul" | 7 => "Aug"
  | 8 => "Sep" | 9 => "Oct" | 10 => "Nov" | _ => "Dec"
  end.

(** [DateString(tv)] of the standard: "Wed Jan 15 2025". *)
Definition DateString (tv : Z) : string :=
  let yv := YearFromTime tv in
  dayName (WeekDay tv) ++ " " ++ monthName (MonthFromTime tv) ++ " "
    ++ pad2 (DateFromTime tv) ++ " "
    ++ (if 0 <=? yv then "" else "-") ++ padYear (Z.abs yv).

(** The year of the ISO format: four digits, or a sign and six. *)
Definition isoYear (yv : Z) : string :=
  if (0 <=? yv) && (yv <=? 9999) then pad4 yv
  else (if 0 <=? yv then "+" else "-") ++ pad6 (Z.abs yv).

(** The code of the first character of a text. *)
Definition head_code (s : string) : option nat :=
  match s with
  | EmptyString => None
  | String c _ => Some (nat_of_ascii c)
  end.

End DateText.

(** ** The [Date] object

    Only the methods [server.js] calls.  A value of type [Date] is the
    time value of the object. *)

Module Date.
Import ES DateText.

Definition Date : Type := Z.

Section Methods.
Context `{Host}.

(** [LocalTime(t)] and [UTC(t)] of the standard. *)
Definition LocalTime (t : Z) : Z := t + LocalTZA t true.
Definition UTC (t : Z) : Z := t - LocalTZA t false.

Definition getTime (d : Date) : Z := d.
Definition getHours (d : Date) : Z := HourFromTime (LocalTime d).
Definition getMinutes (d : Date) : Z := MinFromTime (LocalTime d).
Definition getDate (d : Date) : Z := DateFromTime (LocalTime d).

(** [d.setDate(dt)] *)
Definition setDate (d : Date) (dt : Z) : Date :=
  let t := LocalTime d in
  UTC (MakeDate (MakeDay (YearFromTime t) (MonthFromTime t) dt) (TimeWithinDay t)).

(** [d.setHours(h, m, s, ms)] *)
Definition setHours (d : Date) (h m s ms : Z) : Date :=
  let t := LocalTime d in
  UTC (MakeDate (Day t) (MakeTime h m s ms)).

(** [d.toDateString()]: the date in the server's zone. *)
Definition toDateString (d : Date) : string := DateString (LocalTime d).

(** [d.toISOString()]: "2025-01-15T12:05:00.000Z", always in UTC. *)
Definition toISOString (d : Date) : string :=
  isoYear (YearFromTime d) ++ "-" ++ pad2 (MonthFromTime d + 1) ++ "-"
    ++ pad2 (DateFromTime d) ++ "T" ++ pad2 (HourFromTime d) ++ ":"
    ++ pad2 (MinFromTime d) ++ ":" ++ pad2 (SecFromTime d) ++ "."
    ++ pad3 (msFromTime d) ++ "Z".

(** [d.toLocaleString("en-US", {timeZone: "America/New_York"})] writes the
    wall clock of New York as "1/15/2025, 7:05:00 AM": month, day, year,
    hour on the twelve-hour clock, minute, second and the half of the day.
    The milliseconds are not written.  The record holds the fields of that
    text. *)
Record USDateTime := {
  us_month : Z;
  us_day : Z;
  us_year : Z;
  us_hour12 : Z;
  us_minute : Z;
  us_second : Z;
  us_pm : bool;
}.

Definition toLocaleString_NewYork (d : Date) : USDateTime :=
  let w := d + offsetNewYork d in
  let h := HourFromTime w in
  {| us_month := MonthFromTime w + 1;
     us_day := DateFromTime w;
     us_year := YearFromTime w;
     us_hour12 := if h mod 12 =? 0 then 12 else h mod 12;
     us_minute := MinFromTime w;
     us_second := SecFromTime w;
     us_pm := 12 <=? h |}.

(** [new Date(text)] for such a text: the fields are read as a date and
    time of the server's own zone.  The year is read as written, which is
    how the engine reads a year of three digits or more (the clock of a
    server shows no other; a year of one or two digits it would place in
    the years 1950 to 2049). *)
Definition Date_of_USDateTime (s : USDateTime) : Date :=
  let hour := (if us_hour12 s =? 12 then 0 else us_hour12 s)
              + (if us_pm s then 12 else 0) in
  UTC (MakeDate (MakeDay (us_year s) (us_month s - 1) (us_day s))
                (MakeTime hour (us_minute s) (us_second s) 0)).

(** *** Words for the properties of the server's zone *)

(** The server's zone keeps one offset: no daylight saving, as on a
    server whose clock is set to UTC. *)
Definition fixed_zone : Prop :=
  forall (t : Z) (isUTC : bool), LocalTZA t isUTC = LocalTZA 0 true.

(** The server's clock shows the local time [t] at some instant: read as
    a local time and shown again it is [t] itself.  Only a local time
    that a daylight-saving step of the server's zone skips is not
    shown. *)
Definition on_the_clock (t : Z) : Prop := LocalTime (UTC t) = t.

End Methods.
End Date.

(** ** Strings

    A JavaScript string is a sequence of code units; the model takes
    [string], one character per code unit, which covers the code units
    below 256.  Among those the white space and line terminators of the
    language (the class [\s] of a regular expression, and what [trim]
    removes) are TAB, LF, VT, FF, CR, SP and NBSP. *)

Module JSString.

Definition isWhiteSpace (c : ascii) : bool :=
  let n := nat_of_ascii c in
  ((9 <=? n) && (n <=? 13) || (n =? 32) || (n =? 160))%nat.

Definition LF : ascii := "010"%char.

Fixpoint trimStart (s : string) : string :=
  match s with
  | EmptyString => EmptyString
  | String c s' => if isWhiteSpace c then trimStart s' else s
  end.

Fixpoint trimEnd (s : string) : string :=
  match s with
  | EmptyString => EmptyString
  | String c s' =>
      match trimEnd s' with
      | EmptyString => if isWhiteSpace c then EmptyString else String c EmptyString
      | r => String c r
      end
  end.

(** [s.trim()] *)
Definition trim (s : string) : string := trimEnd (trimStart s).

(** [s.startsWith(p)] *)
Definition startsWith (s p : string) : bool := String.prefix p s.

(** [s.split(/\n+/)]: the pieces between maximal runs of line feeds; a
    run at either end of [s] leaves an empty piece there. *)
Fixpoint split_LF (s : string) : list string :=
  match s with
  | EmptyString => [EmptyString]
  | String c s' =>
      if Ascii.eqb c LF then
        match s' with
        | String c' _ => if Ascii.eqb c' LF then split_LF s'
                         else EmptyString :: split_LF s'
        | EmptyString => EmptyString :: split_LF s'
        end
      else
        match split_LF s' with
        | piece :: rest => String c piece :: rest
        | [] => [String c EmptyString]
        end
  end.

(** [line.replace(/^\s*-\s*/, '')]: the pattern is anchored at the start
    and [\s*] is greedy, so it matches exactly when the first character
    after the leading white space is a hyphen, and then takes the white
    space after the hyphen as well. *)
Definition strip_bullet (line : string) : string :=
  match trimStart line with
  | String "-"%char rest => trimStart rest
  | _ => line
  end.

(** [Boolean(s)] for a string: the empty string is falsy. *)
Definition truthy (s : string) : bool :=
  match s with EmptyString => false | _ => true end.

(** [a || b] where [a] may be [undefined] and both are strings. *)
Definition or_else (a : option string) (b : string) : string :=
  match a with
  | Some s => if truthy s then s else b
  | None => b
  end.

(** [parts.join('')] *)
Definition join_empty (parts : list string) : string :=
  fold_right String.append EmptyString parts.

End JSString.

(** ** JSON values, as [JSON.parse] and [res.json] see them *)

#[warnings="-register-all"]
Inductive JSON : Type :=
| JNull
| JBool (b : bool)
| JNumber (n : Z)
| JString (s : string)
| JArray (elements : list JSON)
| JObject (members : list (string * JSON)).

Module JSValue.
Import JSString.

(** Own property of a parsed object. *)
Fixpoint member (key : string) (members : list (string * JSON)) : option JSON :=
  match members with
  | [] => None
  | (k, v) :: rest => if String.eqb k key then Some v else member key rest
  end.

(** [v.key] for a value [v] that is not [null]: objects give their
    member, primitives and arrays have no member of the names used here
    ("choices", "message", "content"); the result [None] is [undefined]. *)
Definition get (v : JSON) (key : string) : Completion (option JSON) :=
  match v with
  | JNull => Throw ("Cannot read properties of null (reading '" ++ key ++ "')")
  | JObject members => Normal (member key members)
  | _ => Normal None
  end.

(** [v?.key]: [undefined] when [v] is [undefined] or [null]. *)
Definition opt_get (v : option JSON) (key : string) : option JSON :=
  match v with
  | Some (JObject members) => member key members
  | _ => None
  end.

(** [v?.[0]] *)
Definition opt_index0 (v : option JSON) : option JSON :=
  match v with
  | Some (JArray elements) => head elements
  | Some (JString (String c _)) => Some (JString (String c EmptyString))
  | Some (JObject members) => member "0" members
  | _ => None
  end.

(** [Boolean(v)] for a member of a parsed body, [None] being
    [undefined]: [null], [false], [0] and the empty string are falsy. *)
Definition ToBoolean (v : option JSON) : bool :=
  match v with
  | None | Some JNull => false
  | Some (JBool b) => b
  | Some (JNumber n) => negb (n =? 0)
  | Some (JString s) => truthy s
  | Some (JArray _) | Some (JObject _) => true
  end.

(** [v?.trim()]: [undefined] for [undefined] and [null], the trimmed text
    for a string; any other value has no method [trim], and calling it
    throws a [TypeError]. *)
Definition opt_trim (v : option JSON) : Completion (option string) :=
  match v with
  | None | Some JNull => Normal None
  | Some (JString s) => Normal (Some (trim s))
  | Some _ => Throw "data.choices?.[0]?.message?.content?.trim is not a function"
  end.

End JSValue.

(** ** HTTP: what a handler answers, what the upstream API answers *)

Inductive HeaderValue : Type :=
| HText (s : string)
| HNumber (n : Z).

Inductive Body : Type :=
| JsonBody (j : JSON)
| BinaryBody (bytes : list Byte.byte).

(** The answer of a handler: [res.status(..)], the headers set with
    [res.setHeader], and the body given to [res.json], [res.send] or
    piped into [res]. *)
Record HttpResponse := {
  status : Z;
  headers : list (string * HeaderValue);
  body : Body;
}.

(** [res.json(j)] and [res.status(code).json(j)] *)
Definition res_json (code : Z) (j : JSON) : HttpResponse :=
  {| status := code; headers := []; body := JsonBody j |}.

(** The requests [server.js] sends to the external API. *)
Inductive UpstreamRequest : Type :=
| ChatCompletion (model system user : string) (max_tokens : Z) (temperature : string)
| Speech (model input voice speed : string).

(** The [Response] of [fetch]: its status, the outcome of [res.json()]
    (which throws when the body is not JSON) and the bytes of
    [res.arrayBuffer()]. *)
Record FetchResponse := {
  res_status : Z;
  res_json_body : Completion JSON;
  res_bytes : list Byte.byte;
}.

(** [res.ok] *)
Definition res_ok (r : FetchResponse) : bool :=
  (200 <=? res_status r) && (res_status r <=? 299).

(** ** Feeds and articles *)

(** What [rss-parser] hands back for one feed; a field the feed does not
    carry is [undefined], here [None]. *)
Record Item := {
  item_title : option string;
  item_contentSnippet : option string;
  item_summary : option string;
  item_pubDate : option string;
  item_link : option string;
}.

Record Feed := {
  feed_title : option string;
  feed_items : option (list Item);
}.

Record Article := {
  headline : string;
  summary : string;
  date : string;
  link : string;
  source : string;
}.

Definition FEEDS : list string := [
  "https://www.adexchanger.com/feed/";
  "https://digiday.com/feed/";
  "https://www.adweek.com/feed/";
  "https://martech.org/feed/";
  "http://feeds.feedburner.com/Exchangewirecom";
  "https://www.mediapost.com/publications/rss/";
  "https://performancein.com/feed/";
  "https://searchengineland.com/feed";
  "https://marketingland.com/feed";
  "https://www.clickz.com/feed/";
  "https://www.campaignlive.co.uk/rss";
  "https://martechseries.com/feed/";
  "https://www.thedrum.com/rss";
  "https://www.cmswire.com/index.rss";
  "https://www.dmnews.com/feed"
].

(** ** The cache and the fetch cycle *)

Record Cache := {
  articles : list Article;
  timestamp : Z;
  lastFetchDate : option string;
}.

(** [let cache = { articles: [], timestamp: 0, lastFetchDate: null }] *)
Definition initial_cache : Cache :=
  {| articles := []; timestamp := 0; lastFetchDate := None |}.

(** What one run of [fetchRSSFeeds] meets: the outcome of
    [parser.parseURL] for each address, and the clock at [Date.now()] and
    at the [new Date()] of the same assignment. *)
Record FetchEnv := {
  parseURL : string -> Completion Feed;
  at_Date_now : Z;
  at_new_Date : Z;
}.

Module Fetcher.
Import JSString.

Section WithHost.
Context `{Host}.

(** The callback of [(feed.items || []).map(...)]. *)
Definition toArticle (feed : Feed) (item : Item) : Article :=
  let headline := or_else (item_title item) "" in
  let summary := or_else (item_contentSnippet item) (or_else (item_summary item) "") in
  {| headline := headline;
     summary := summary;
     date := or_else (item_pubDate item) "";
     link := or_else (item_link item) "";
     source := or_else (feed_title feed) "" |}.

Definition itemsOf (feed : Feed) : list Article :=
  map (toArticle feed) (default [] (feed_items feed)).

(** The [for (const url of FEEDS)] loop: [allItems] is the accumulator,
    the inner [try]/[catch] logs a failure and goes on. *)
Fixpoint fetchLoop (parseURL : string -> Completion Feed) (urls : list string)
    (allItems : list Article) : Completion (list Article) :=
  match urls with
  | [] => Normal allItems
  | url :: rest =>
      allItems' ← try_catch
        (feed ← parseURL url;
         let items := itemsOf feed in
         mret (allItems ++ items))
        (fun err => (* console.warn *) mret allItems);
      fetchLoop parseURL rest allItems'
  end.

(** [(a, b) => new Date(b.date) - new Date(a.date)].  Both time values
    are integers; the difference of two distinct integers keeps its sign
    under rounding, and only the sign is read. *)
Definition byDate (a b : Article) : option Z :=
  match Date_parse (date b), Date_parse (date a) with
  | Some tb, Some ta => Some (tb - ta)
  | _, _ => None
  end.

(** [fetchRSSFeeds]: the outer [try] builds the new cache, the outer
    [catch] logs and leaves the cache as it was. *)
Definition fetchRSSFeeds (env : FetchEnv) (cache : Cache) : Cache :=
  let attempt : Completion Cache :=
    allItems ← fetchLoop (parseURL env) FEEDS [];
    let allItems := Array_sort byDate allItems in
    mret {| articles := allItems;
            timestamp := at_Date_now env;
            lastFetchDate := Some (Date.toISOString (at_new_Date env)) |} in
  match attempt with
  | Normal cache' => cache'
  | Throw err => (* console.error *) cache
  end.

(** *** Words for the properties of a fetch cycle *)

(** The feed an address gave, when it was retrieved and parsed. *)
Definition retrieved (parseURL : string -> Completion Feed) (url : string)
  : option Feed :=
  match parseURL url with
  | Normal feed => Some feed
  | Throw _ => None
  end.

Definition fails (parseURL : string -> Completion Feed) (url : string) : Prop :=
  retrieved parseURL url = None.

(** The articles of the feeds that succeeded, feed after feed in the
    order of the addresses. *)
Definition fetched (parseURL : string -> Completion Feed) (urls : list string)
  : list Article :=
  concat (map itemsOf (omap (retrieved parseURL) urls)).

(** [a] may stand before [b] in a list that descends by date: both dates
    parse and the one of [b] is not later. *)
Definition date_desc (a b : Article) : Prop :=
  exists ta tb,
    Date_parse (date a) = Some ta /\ Date_parse (date b) = Some tb /\ tb <= ta.

Definition parseable (a : Article) : Prop := Date_parse (date a) <> None.

End WithHost.
End Fetcher.

(** ** The scheduler *)

Module Scheduler.
Import Date.

Section WithHost.
Context `{Host}.

(** [new Date(now.toLocaleString("en-US", {timeZone: "America/New_York"}))] *)
Definition estTime (now : Date) : Date :=
  Date_of_USDateTime (toLocaleString_NewYork now).

(** [cache.lastFetchDate !== currentDate]: [null] differs from every
    string. *)
Definition strict_neq (a : option string) (b : string) : bool :=
  match a with
  | None => true
  | Some s => negb (String.eqb s b)
  end.

Definition shouldFetchToday (now : Date) (cache : Cache) : bool :=
  let estTime := estTime now in
  let currentHour := getHours estTime in
  let currentDate := toDateString estTime in
  (currentHour =? 7) && strict_neq (lastFetchDate cache) currentDate.

Definition nextFetchTime (now : Date) : Date :=
  let estTime := estTime now in
  let currentHour := getHours estTime in
  if 7 <=? currentHour then
    let nextFetchTime := estTime in
    let nextFetchTime := setDate nextFetchTime (getDate nextFetchTime + 1) in
    setHours nextFetchTime 7 0 0 0
  else
    let nextFetchTime := estTime in
    setHours nextFetchTime 7 0 0 0.

(** The delay [scheduleNextFetch] hands to [setTimeout]. *)
Definition timeUntilNextFetch (now : Date) : Z :=
  getTime (nextFetchTime now) - getTime (estTime now).

End WithHost.
End Scheduler.

(** ** The routes that read and write the article cache

    A handler is a function of the cache it finds; it returns its answer
    and the cache it leaves.  The bodies are the JSON values [res.json]
    is given. *)

Module News.
Import Fetcher Scheduler.

Definition Article_json (a : Article) : JSON :=
  JObject [("headline", JString (headline a));
           ("summary", JString (summary a));
           ("date", JString (date a));
           ("link", JString (link a));
           ("source", JString (source a))].

(** [cache.lastFetchDate] in a body: [null] or the string. *)
Definition lastFetch_json (d : option string) : JSON :=
  match d with
  | Some s => JString s
  | None => JNull
  end.

Definition news_body (cache : Cache) (cacheStatus : string) : JSON :=
  JObject [("articles", JArray (map Article_json (articles cache)));
           ("lastFetch", lastFetch_json (lastFetchDate cache));
           ("cacheStatus", JString cacheStatus)].

Section WithHost.
Context `{Host}.

(** [GET /api/news].  [now] is the clock at [shouldFetchToday]; [catchUp]
    is what the fetch of the 7 AM branch meets, [initial] what the fetch
    of the empty-cache branch meets. *)
Definition getNews (now : Z) (catchUp initial : FetchEnv) (cache : Cache)
  : HttpResponse * Cache :=
  let cache :=
    if shouldFetchToday now cache then fetchRSSFeeds catchUp cache else cache in
  if (0 <? length (articles cache))%nat then
    (res_json 200 (news_body cache "serving cached data"), cache)
  else
    let cache := fetchRSSFeeds initial cache in
    (res_json 200 (news_body cache "initial fetch"), cache).

(** [POST /api/clear-cache] *)
Definition clearCache (cache : Cache) : HttpResponse * Cache :=
  let cache := {| articles := []; timestamp := 0; lastFetchDate := None |} in
  (res_json 200 (JObject [("message", JString "Cache cleared")]), cache).

(** [POST /api/fetch-now] *)
Definition fetchNow (env : FetchEnv) (cache : Cache) : HttpResponse * Cache :=
  let cache := fetchRSSFeeds env cache in
  (res_json 200
     (JObject [("message", JString "Manual fetch completed");
               ("articlesCount", JNumber (Z.of_nat (length (articles cache))));
               ("lastFetch", lastFetch_json (lastFetchDate cache))]),
   cache).

(** The callback of [setTimeout] in [scheduleNextFetch]: one fetch cycle,
    and the delay of the timer armed next. *)
Definition timerFires (env : FetchEnv) (now : Z) (cache : Cache) : Z * Cache :=
  (timeUntilNextFetch now, fetchRSSFeeds env cache).

(** Everything that touches the cache after start-up. *)
Inductive Event : Type :=
| GetNews (now : Z) (catchUp initial : FetchEnv)
| ClearCache
| FetchNow (env : FetchEnv)
| TimerFires (env : FetchEnv) (now : Z).

Definition step (e : Event) (cache : Cache) : option HttpResponse * Cache :=
  match e with
  | GetNews now catchUp initial =>
      let '(r, c) := getNews now catchUp initial cache in (Some r, c)
  | ClearCache => let '(r, c) := clearCache cache in (Some r, c)
  | FetchNow env => let '(r, c) := fetchNow env cache in (Some r, c)
  | TimerFires env now => (None, snd (timerFires env now cache))
  end.

(** The answers given along a sequence of events, and the cache left. *)
Fixpoint serve (events : list Event) (cache : Cache)
  : list (option HttpResponse) * Cache :=
  match events with
  | [] => ([], cache)
  | e :: rest =>
      let '(r, c) := step e cache in
      let '(rs, c') := serve rest c in
      (r :: rs, c')
  end.

End WithHost.

(** *** Words for the properties of the routes *)

(** A fetch cycle that gathers at least one article. *)
Definition productive (env : FetchEnv) : Prop :=
  Fetcher.fetched (parseURL env) FEEDS <> [].

Section Words.
Context `{Host}.

(** The fetch cycles an event runs on the cache it finds, by what each
    of them meets: [GET /api/news] runs the catch-up cycle when
    [shouldFetchToday] says so, and the cycle of the empty cache when no
    article is there after that. *)
Definition cycles_of (e : Event) (cache : Cache) : list FetchEnv :=
  match e with
  | GetNews now catchUp initial =>
      let caughtUp := shouldFetchToday now cache in
      let cache' := if caughtUp then fetchRSSFeeds catchUp cache else cache in
      (if caughtUp then [catchUp] else [])
        ++ (if (0 <? length (articles cache'))%nat then [] else [initial])
  | ClearCache => []
  | FetchNow env => [env]
  | TimerFires env _ => [env]
  end.

(** Along [events], from [cache] on, the cache is not cleared and every
    fetch cycle that runs gathers at least one article. *)
Fixpoint gathering (events : list Event) (cache : Cache) : Prop :=
  match events with
  | [] => True
  | e :: rest =>
      e <> ClearCache
      /\ Forall productive (cycles_of e cache)
      /\ gathering rest (snd (step e cache))
  end.

End Words.

Definition is_GetNews (e : Event) : Prop :=
  match e with
  | GetNews _ _ _ => True
  | _ => False
  end.

(** The [articles] member of a news body. *)
Definition served_articles (r : HttpResponse) : option (list JSON) :=
  match body r with
  | JsonBody (JObject members) =>
      match JSValue.member "articles" members with
      | Some (JArray l) => Some l
      | _ => None
      end
  | _ => None
  end.

(** The [lastFetch] member of a body. *)
Definition served_lastFetch (r : HttpResponse) : option JSON :=
  match body r with
  | JsonBody (JObject members) => JSValue.member "lastFetch" members
  | _ => None
  end.

(** An answer was given, with status 200 and an [articles] list that is
    not empty. *)
Definition carries_articles (answer : option HttpResponse) : Prop :=
  exists r l,
    answer = Some r /\ status r = 200 /\ served_articles r = Some l /\ l <> [].

End News.

(** ** [POST /api/summarize] *)

Module Summarize.
Import JSString JSValue.

Definition dquote : string := String "034"%char EmptyString.

Definition ul_open : string :=
  "<ul style=" ++ dquote ++ "padding-left:1.5em;list-style:disc;" ++ dquote ++ ">".

(** The [items] of the bullet branch. *)
Definition bullet_items (summaryRaw : string) : list string :=
  List.filter truthy
    (map (fun line => trim (strip_bullet line)) (split_LF summaryRaw)).

(** From [summaryRaw] to [summary]. *)
Definition formatSummary (summaryRaw : string) : string :=
  let summary := summaryRaw in
  if startsWith summaryRaw "-" then
    let items := bullet_items summaryRaw in
    ul_open
      ++ join_empty (map (fun item => ("<li>" ++ item ++ "</li>")%string) items)
      ++ "</ul>"
  else summary.

(** *** Words for the properties of the bullet branch *)

(** A bullet list as the prompt asks for it: one line "- item" for each
    item, a single line feed between two lines. *)
Fixpoint bullet_text (items : list string) : string :=
  match items with
  | [] => EmptyString
  | item :: rest =>
      match rest with
      | [] => "- " ++ item
      | _ :: _ => "- " ++ item ++ String LF (bullet_text rest)
      end
  end.

Fixpoint no_LF (s : string) : bool :=
  match s with
  | EmptyString => true
  | String c s' => negb (Ascii.eqb c LF) && no_LF s'
  end.

(** An item that fills one line and has no white space at its ends. *)
Definition plain (item : string) : Prop :=
  item <> EmptyString /\ no_LF item = true /\ trim item = item.

(** [data.choices?.[0]?.message?.content?.trim() || ''] *)
Definition extract_summaryRaw (data : JSON) : Completion string :=
  choices ← get data "choices";
  content ← opt_trim (opt_get (opt_get (opt_index0 choices) "message") "content");
  mret (or_else content "").

(** A chat completion whose first choice carries the message text
    [content], as the upstream API sent it. *)
Definition first_content (data : JSON) (content : string) : Prop :=
  exists members choice others message,
    data = JObject members
    /\ member "choices" members = Some (JArray (JObject choice :: others))
    /\ member "message" choice = Some (JObject message)
    /\ member "content" message = Some (JString content).

Definition chat_request (text : string) : UpstreamRequest :=
  ChatCompletion "gpt-4o-mini"
    "You are a helpful assistant that summarizes news articles."
    ("Summarize the following article as 4-5 concise bullet points. Do not write a paragraph."
       ++ String LF (String LF EmptyString) ++ text)
    300 "0.6".

(** The handler: [text] is the member of the request body ([None] when
    absent), [api] the outcome of a call to the external API.  It returns
    its answer and the calls it made. *)
Definition summarize (text : option string)
    (api : UpstreamRequest -> Completion FetchResponse)
  : HttpResponse * list UpstreamRequest :=
  if negb (truthy (default "" text)) then
    (res_json 400 (JObject [("error", JString "Missing text")]), [])
  else
    let text := default "" text in
    let attempt : Completion HttpResponse :=
      openaiRes ← api (chat_request text);
      data ← res_json_body openaiRes;
      summaryRaw ← extract_summaryRaw data;
      let summary := formatSummary summaryRaw in
      mret (res_json 200 (JObject [("summary", JString summary)])) in
    (match attempt with
     | Normal answer => answer
     | Throw err =>
         res_json 500 (JObject [("error", JString "Failed to summarize");
                                ("details", JString err)])
     end,
     [chat_request text]).

End Summarize.

(** ** [POST /api/tts] and its cache directory *)

Module TTS.
Import JSString.

(** The part of the file system the handler sees: the directories and
    the files, by path. *)
Record FileSystem := {
  dirs : gset string;
  files : gmap string (list Byte.byte);
}.

(** The state a request runs in: the file system, and the calls sent to
    the external API so far. *)
Record World := {
  fs : FileSystem;
  sent : list UpstreamRequest;
}.

(** What one request meets: the outcome of a call to the external API,
    and whether [mkdirSync] and [writeFileSync] fail (with which
    message).  [writeFileSync] opens the file, which creates or empties
    it, and then writes; [write_reached] says how far a failing write
    got: [None] when the file could not be opened, [Some n] when it was
    opened and [n] bytes reached it before the error. *)
Record TtsEnv := {
  api : UpstreamRequest -> Completion FetchResponse;
  mkdir_error : option string;
  write_error : option string;
  write_reached : option nat;
}.

(** A computation with effects on the world that may throw; what it did
    to the world before throwing stays done. *)
Definition IO (A : Type) : Type := World -> Completion A * World.

#[global] Instance IO_ret : MRet IO := fun A a w => (Normal a, w).
#[global] Instance IO_bind : MBind IO := fun A B k c w =>
  match c w with
  | (Normal a, w') => k a w'
  | (Throw e, w') => (Throw e, w')
  end.

Definition try_catchIO {A} (body : IO A) (handler : string -> IO A) : IO A :=
  fun w =>
    match body w with
    | (Normal a, w') => (Normal a, w')
    | (Throw e, w') => handler e w'
    end.

Definition liftC {A} (c : Completion A) : IO A := fun w => (c, w).

(** [fs.existsSync(p)]: a directory or a file is there. *)
Definition exists_in (disk : FileSystem) (p : string) : bool :=
  bool_decide (p ∈ dirs disk) || bool_decide (is_Some (files disk !! p)).

Definition existsSync (p : string) : IO bool := fun w =>
  (Normal (exists_in (fs w) p), w).

(** [fs.mkdirSync(p)] *)
Definition mkdirSync (env : TtsEnv) (p : string) : IO unit := fun w =>
  match mkdir_error env with
  | Some e => (Throw e, w)
  | None =>
      (Normal tt,
       {| fs := {| dirs := {[p]} ∪ dirs (fs w); files := files (fs w) |};
          sent := sent w |})
  end.

(** [fs.statSync(p).size] and the bytes [fs.createReadStream(p)] pipes
    into the answer. *)
Definition readCached (p : string) : IO (Z * list Byte.byte) := fun w =>
  match files (fs w) !! p with
  | Some bytes => (Normal (Z.of_nat (length bytes), bytes), w)
  | None => (Throw ("ENOENT: no such file, stat '" ++ p ++ "'"), w)
  end.

(** [fs.writeFileSync(p, bytes)]: a write that fails after the file was
    opened leaves the file with the bytes that reached it. *)
Definition writeFileSync (env : TtsEnv) (p : string) (bytes : list Byte.byte)
  : IO unit := fun w =>
  let holding (content : list Byte.byte) : World :=
    {| fs := {| dirs := dirs (fs w); files := <[p := content]> (files (fs w)) |};
       sent := sent w |} in
  match write_error env, write_reached env with
  | None, _ => (Normal tt, holding bytes)
  | Some e, None => (Throw e, w)
  | Some e, Some n => (Throw e, holding (take n bytes))
  end.

(** [await fetch(...)]: the call is recorded, its outcome is the
    environment's. *)
Definition fetch (env : TtsEnv) (request : UpstreamRequest) : IO FetchResponse :=
  fun w => (api env request, {| fs := fs w; sent := sent w ++ [request] |}).

(** [path.join(a, b)] for an [a] without a trailing separator and a plain
    name [b]. *)
Definition path_join (a b : string) : string := (a ++ "/" ++ b)%string.

(** The message of the [TypeError] of [hash.update] (it goes on to name
    the value received; nothing reads it). *)
Definition update_TypeError : string :=
  "The " ++ Summarize.dquote ++ "data" ++ Summarize.dquote
    ++ " argument must be of type string or an instance of Buffer, TypedArray, or DataView.".

Definition audio_headers (size : Z) : list (string * HeaderValue) :=
  [("Content-Type", HText "audio/mpeg");
   ("Content-Length", HNumber size);
   ("Cache-Control", HText "public, max-age=3600")].

Section WithHost.
Context `{Host}.

Definition cacheDir : string := path_join cwd "tts_cache".

(** The file of a text: its digest, in the cache directory. *)
Definition cacheFile (text : string) : string :=
  let hash := sha256_hex text in
  path_join cacheDir (hash ++ ".mp3").

Definition speech_request (text : string) : UpstreamRequest :=
  Speech "tts-1" text "alloy" "1.0".

(** The handler: [text] is the member of the request body, [None] when
    absent.  The digest is taken before the [try]: [hash.update(text)]
    takes a string (or a buffer, which a parsed body never holds) and
    throws for every other value, and nothing catches that error. *)
Definition tts (text : option JSON) (env : TtsEnv) : IO HttpResponse :=
  if negb (JSValue.ToBoolean text) then
    mret (res_json 400 (JObject [("error", JString "Missing text")]))
  else
    match text with
    | Some (JString text) =>
        (* [const hash = ...]: the digest is taken in [cacheFile] *)
        let cacheFile := cacheFile text in
        try_catchIO
          (dirExists ← existsSync cacheDir;
           _ ← (if negb dirExists then mkdirSync env cacheDir else mret tt);
           fileExists ← existsSync cacheFile;
           if fileExists : bool then
             '(size, bytes) ← readCached cacheFile;
             mret {| status := 200;
                     headers := audio_headers size;
                     body := BinaryBody bytes |}
           else
             openaiRes ← fetch env (speech_request text);
             if negb (res_ok openaiRes) then
               errorData ← liftC (res_json_body openaiRes);
               mret (res_json (res_status openaiRes)
                       (JObject [("error", JString "TTS failed");
                                 ("details", errorData)]))
             else
               let audioBuffer := res_bytes openaiRes in
               _ ← try_catchIO (writeFileSync env cacheFile audioBuffer)
                     (fun writeErr => (* console.error *) mret tt);
               mret {| status := 200;
                       headers := audio_headers (Z.of_nat (length audioBuffer));
                       body := BinaryBody audioBuffer |})
          (fun err =>
             mret (res_json 500
                     (JObject [("error", JString "Failed to generate speech");
                               ("details", JString err)])))
    | _ =>
        (* [hash.update(text)] throws, before the [try] *)
        liftC (Throw update_TypeError)
    end.

(** One request against a file system: the answer ([None] when the
    handler threw and so gave none), the file system left, the calls
    made to the external API. *)
Definition post_tts (text : option JSON) (env : TtsEnv) (disk : FileSystem)
  : option HttpResponse * FileSystem * list UpstreamRequest :=
  match tts text env {| fs := disk; sent := [] |} with
  | (Normal r, w) => (Some r, fs w, sent w)
  | (Throw _, w) => (None, fs w, sent w)
  end.

End WithHost.
End TTS.

(** ** A sample host and sample outcomes

    A server whose own clock is UTC, on a winter day in New York (UTC-5),
    with the entries of the runtime's tables that the examples use: the
    time values of two date texts, the digest of one text.  Its sort is
    the stable sort; where an example gives the order of a sorted list,
    the comparator is consistent on that list, so that every engine
    sorts it alike. *)

Module Sample.

Definition winterHost : Host := {|
  LocalTZA := fun _ _ => 0;
  offsetNewYork := fun _ => -5 * ES.msPerHour;
  Date_parse := fun s =>
    if String.eqb s "2025-01-15T12:00:00.000Z" then Some 1736942400000
    else if String.eqb s "2025-01-14T09:30:00.000Z" then Some 1736847000000
    else None;
  Date_parse_empty := eq_refl;
  Array_sort := @JSArray.stable_sort;
  Array_sort_permutes := @JSArray.stable_sort_permutes;
  Array_sort_consistent := fun _ _ _ _ => eq_refl;
  sha256_hex := fun s =>
    if String.eqb s "hello"
    then "2cf24dba5fb0a30e26e83b2ac5b9e29e1b161e5c1fa7425e73043362938b9824"
    else "e3b0c44298fc1c149afbf4c8996fb92427ae41e4649b934ca495991b7852b855";
  cwd := "/app";
|}.

Definition dated_item : Item := {|
  item_title := Some "Dated";
  item_contentSnippet := Some "snippet";
  item_summary := None;
  item_pubDate := Some "2025-01-15T12:00:00.000Z";
  item_link := Some "https://digiday.com/dated";
|}.

Definition undated_item : Item := {|
  item_title := Some "Undated";
  item_contentSnippet := None;
  item_summary := Some "summary";
  item_pubDate := None;
  item_link := Some "https://digiday.com/undated";
|}.

(** An item of the day before. *)
Definition older_item : Item := {|
  item_title := Some "Older";
  item_contentSnippet := Some "";
  item_summary := Some "from the day before";
  item_pubDate := Some "2025-01-14T09:30:00.000Z";
  item_link := Some "https://www.adexchanger.com/older";
|}.

(** An item of the same instant as [dated_item]. *)
Definition dated_twin : Item := {|
  item_title := Some "Twin";
  item_contentSnippet := Some "of the same instant";
  item_summary := None;
  item_pubDate := Some "2025-01-15T12:00:00.000Z";
  item_link := Some "https://digiday.com/twin";
|}.

(** An item that carries nothing but a link. *)
Definition bare_item : Item := {|
  item_title := None;
  item_contentSnippet := None;
  item_summary := None;
  item_pubDate := None;
  item_link := Some "https://digiday.com/bare";
|}.

(** One feed answers, the others fail. *)
Definition one_feed (items : list Item) (url : string) : Completion Feed :=
  if String.eqb url "https://digiday.com/feed/"
  then Normal {| feed_title := Some "Digiday"; feed_items := Some items |}
  else Throw "Status code 404".

(** The first two feeds answer, the first without a title, the others
    fail. *)
Definition two_feeds (first second : list Item) (url : string) : Completion Feed :=
  if String.eqb url "https://www.adexchanger.com/feed/"
  then Normal {| feed_title := None; feed_items := Some first |}
  else if String.eqb url "https://digiday.com/feed/"
  then Normal {| feed_title := Some "Digiday"; feed_items := Some second |}
  else Throw "Status code 404".

(** No feed is reachable. *)
Definition unreachable (url : string) : Completion Feed :=
  Throw "getaddrinfo ENOTFOUND".

(** 2025-01-15, 7:05:00 in New York. *)
Definition at_0705 : Z := 1736942700000.
(** 2025-01-15, 7:10:00 in New York. *)
Definition at_0710 : Z := 1736943000000.
(** 2025-01-15, 10:00:00 in New York. *)
Definition at_1000 : Z := 1736953200000.
(** 2025-01-15, 10:30:00 in New York. *)
Definition at_1030 : Z := 1736955000000.

Definition fetch_at (t : Z) (parseURL : string -> Completion Feed) : FetchEnv :=
  {| parseURL := parseURL; at_Date_now := t; at_new_Date := t |}.

Definition hello_audio : list Byte.byte := [Byte.x49; Byte.x44; Byte.x33].

Definition api_answers (r : FetchResponse) : UpstreamRequest -> Completion FetchResponse :=
  fun _ => Normal r.

Definition speech_ok : FetchResponse :=
  {| res_status := 200; res_json_body := Throw "Unexpected token I in JSON";
     res_bytes := hello_audio |}.

Definition rate_limited : FetchResponse :=
  {| res_status := 429;
     res_json_body := Normal (JObject [("error",
       JObject [("message", JString "Rate limit reached");
                ("type", JString "requests")])]);
     res_bytes := [] |}.

Definition unauthorized : FetchResponse :=
  {| res_status := 401;
     res_json_body := Normal (JObject [("error",
       JObject [("message", JString "Incorrect API key provided");
                ("type", JString "invalid_request_error")])]);
     res_bytes := [] |}.

(** A chat completion whose first choice carries [content]. *)
Definition chat_ok (content : string) : FetchResponse :=
  {| res_status := 200;
     res_json_body := Normal (JObject [("choices",
       JArray [JObject [("index", JNumber 0);
                        ("message", JObject [("role", JString "assistant");
                                             ("content", JString content)])]])]);
     res_bytes := [] |}.

Definition empty_disk : TTS.FileSystem := {| TTS.dirs := ∅; TTS.files := ∅ |}.

Definition tts_env (r : FetchResponse) : TTS.TtsEnv :=
  {| TTS.api := api_answers r; TTS.mkdir_error := None; TTS.write_error := None;
     TTS.write_reached := None |}.

(** A server whose own zone is New York, in the year 2025: daylight time
    from 9 March, 7:00 UTC, to 2 November, 6:00 UTC.  On its own clock
    the hour from 2:00 on 9 March is skipped and the hour from 1:00 on
    2 November comes twice; such a local time is read by the offset
    before the step. *)
Definition newYork_at (t : Z) : Z :=
  if (1741503600000 <=? t) && (t <? 1762063200000)
  then -4 * ES.msPerHour else -5 * ES.msPerHour.

Definition newYork_local (t : Z) : Z :=
  if (1741489200000 <=? t) && (t <? 1762048800000)
  then -4 * ES.msPerHour else -5 * ES.msPerHour.

Definition newYorkHost : Host := {|
  LocalTZA := fun t isUTC => if isUTC then newYork_at t else newYork_local t;
  offsetNewYork := newYork_at;
  Date_parse := fun s =>
    if String.eqb s "2025-01-15T12:00:00.000Z" then Some 1736942400000 else None;
  Date_parse_empty := eq_refl;
  Array_sort := @JSArray.stable_sort;
  Array_sort_permutes := @JSArray.stable_sort_permutes;
  Array_sort_consistent := fun _ _ _ _ => eq_refl;
  sha256_hex := fun s =>
    if String.eqb s "hello"
    then "2cf24dba5fb0a30e26e83b2ac5b9e29e1b161e5c1fa7425e73043362938b9824"
    else "e3b0c44298fc1c149afbf4c8996fb92427ae41e4649b934ca495991b7852b855";
  cwd := "/app";
|}.

(** 2025-11-01, 7:10:00 in New York, the day before the clocks go
    back. *)
Definition at_nov1_0710 : Z := 1761995400000.
(** 2025-11-02, 3:10:00 in New York, an hour after they went back. *)
Definition at_nov2_0310 : Z := 1762071000000.

End Sample.

(** ** Start-up, and the caches a running server can hold *)

Module Server.
Import Fetcher Scheduler News.

Section WithHost.
Context `{Host}.

(** The callback of [app.listen]: with an empty cache, one fetch cycle
    and then the timer; otherwise the timer alone.  [now] is the clock
    when [scheduleNextFetch] runs.  The answer is the delay armed and the
    cache left. *)
Definition onListen (env : FetchEnv) (now : Z) (cache : Cache) : Z * Cache :=
  if (length (articles cache) =? 0)%nat then
    let cache := fetchRSSFeeds env cache in
    (timeUntilNextFetch now, cache)
  else
    (timeUntilNextFetch now, cache).

(** The module starts with [initial_cache]; [app.listen] and the events
    are all that assign [cache]. *)
Inductive Reachable : Cache -> Prop :=
| reach_initial : Reachable initial_cache
| reach_listen (env : FetchEnv) (now : Z) :
    Reachable (snd (onListen env now initial_cache))
| reach_step (e : Event) (cache : Cache) :
    Reachable cache -> Reachable (snd (step e cache)).

(** The articles of [l] whose date parses to [k] ([None]: does not
    parse). *)
Definition dated (k : option Z) (l : list Article) : list Article :=
  List.filter
    (fun a => match Date_parse (date a), k with
              | Some t, Some t' => t =? t'
              | None, None => true
              | _, _ => false
              end) l.

End WithHost.
End Server.

(** ** More words for the properties of the summary *)

Module Lines.
Import JSString.

(** [s] without its line feeds. *)
Fixpoint remove_LF (s : string) : string :=
  match s with
  | EmptyString => EmptyString
  | String c s' => if Ascii.eqb c LF then remove_LF s' else String c (remove_LF s')
  end.

(** [pieces.join("\n")] *)
Fixpoint join_LF (pieces : list string) : string :=
  match pieces with
  | [] => EmptyString
  | [piece] => piece
  | piece :: rest => piece ++ String LF (join_LF rest)
  end.

(** No two line feeds in a row. *)
Fixpoint single_LFs (s : string) : bool :=
  match s with
  | EmptyString => true
  | String c s' =>
      match s' with
      | String c' _ => negb (Ascii.eqb c LF && Ascii.eqb c' LF) && single_LFs s'
      | EmptyString => true
      end
  end.

End Lines.

(** ** More sample outcomes *)

Module MoreSamples.
Import Sample.

Definition transport_down : UpstreamRequest -> Completion FetchResponse :=
  fun _ => Throw "request to https://api.openai.com failed, reason: ECONNRESET".

(** A gateway answers 502 with a page that is not JSON. *)
Definition bad_gateway : FetchResponse :=
  {| res_status := 502;
     res_json_body := Throw "Unexpected token < in JSON at position 0";
     res_bytes := [] |}.

(** A disk on which the cache directory cannot be made. *)
Definition read_only_env (r : FetchResponse) : TTS.TtsEnv :=
  {| TTS.api := api_answers r;
     TTS.mkdir_error := Some "EROFS: read-only file system, mkdir '/app/tts_cache'";
     TTS.write_error := Some "EROFS: read-only file system, open";
     TTS.write_reached := None |}.

(** A disk that is full: the directory is there, the file is opened,
    and the write fails after [reached] bytes. *)
Definition full_disk_env (r : FetchResponse) (reached : nat) : TTS.TtsEnv :=
  {| TTS.api := api_answers r;
     TTS.mkdir_error := None;
     TTS.write_error := Some "ENOSPC: no space left on device, write";
     TTS.write_reached := Some reached |}.

(** A cache directory in which no file may be made: the file cannot be
    opened. *)
Definition no_access_env (r : FetchResponse) : TTS.TtsEnv :=
  {| TTS.api := api_answers r;
     TTS.mkdir_error := None;
     TTS.write_error := Some "EACCES: permission denied, open";
     TTS.write_reached := None |}.

Definition disk_with_cache_dir : TTS.FileSystem :=
  {| TTS.dirs := {["/app/tts_cache"]}; TTS.files := ∅ |}.

(** The sample host with one more entry in the table of digests. *)
Definition digestHost : Host := {|
  LocalTZA := fun _ _ => 0;
  offsetNewYork := fun _ => -5 * ES.msPerHour;
  Date_parse := fun s =>
    if String.eqb s "2025-01-15T12:00:00.000Z" then Some 1736942400000 else None;
  Date_parse_empty := eq_refl;
  Array_sort := @JSArray.stable_sort;
  Array_sort_permutes := @JSArray.stable_sort_permutes;
  Array_sort_consistent := fun _ _ _ _ => eq_refl;
  sha256_hex := fun s =>
    if String.eqb s "hello"
    then "2cf24dba5fb0a30e26e83b2ac5b9e29e1b161e5c1fa7425e73043362938b9824"
    else if String.eqb s "world"
    then "486ea46224d1bb4fb680f34f7c9ad96a8f24ec88be73ea8e5a6c65260e9cb8a7"
    else "e3b0c44298fc1c149afbf4c8996fb92427ae41e4649b934ca495991b7852b855";
  cwd := "/app";
|}.

(** A disk that holds the audio of "hello". *)
Definition warm_disk : TTS.FileSystem :=
  {| TTS.dirs := {["/app/tts_cache"]};
     TTS.files :=
       {["/app/tts_cache/2cf24dba5fb0a30e26e83b2ac5b9e29e1b161e5c1fa7425e73043362938b9824.mp3"
         := hello_audio]} |}.

Definition down_env : TTS.TtsEnv :=
  {| TTS.api := transport_down; TTS.mkdir_error := None; TTS.write_error := None;
     TTS.write_reached := None |}.

(** The answer [chat_ok] gives, under status 500. *)
Definition chat_500 (content : string) : FetchResponse :=
  {| res_status := 500;
     res_json_body := res_json_body (chat_ok content);
     res_bytes := [] |}.

End MoreSamples.

(* ================================================================== *)
(** * Part II: properties                                              *)
(* ================================================================== *)

(** ** The date algorithms *)

Section ESFacts.
Import ES.

(** [YearFromTime t] is the year whose days hold the day of [t]. *)
Lemma YearFromTime_spec (t : Z) :
  DayFromYear (YearFromTime t) <= Day t < DayFromYear (YearFromTime t + 1).
Proof.
  unfold YearFromTime. generalize (Day t) as d. intros d. cbv zeta.
  unfold DayFromYear.
  repeat match goal with
         | |- context [if ?b then _ else _] => destruct b eqn:?
         end;
    Z.div_mod_to_equations; lia.
Qed.

Lemma MonthFromTime_range (t : Z) : 0 <= MonthFromTime t <= 11.
Proof.
  unfold MonthFromTime. cbv zeta.
  repeat match goal with
         | |- context [if ?b then _ else _] => destruct b
         end; lia.
Qed.

Lemma time_fields_range (t : Z) :
  0 <= HourFromTime t < 24 /\ 0 <= MinFromTime t < 60
  /\ 0 <= SecFromTime t < 60 /\ 0 <= msFromTime t < 1000
  /\ 0 <= TimeWithinDay t < msPerDay.
Proof.
  unfold HourFromTime, MinFromTime, SecFromTime, msFromTime, TimeWithinDay,
    msPerDay, msPerSecond.
  repeat split; try (apply Z.mod_pos_bound; lia).
Qed.

(** The calendar fields of [t] give back its day; a date past the one of
    [t] counts on from it. *)
Lemma MakeDay_fields (t k : Z) :
  MakeDay (YearFromTime t) (MonthFromTime t) (DateFromTime t + k) = Day t + k.
Proof.
  pose proof (MonthFromTime_range t) as Hm.
  unfold MakeDay. cbv zeta.
  rewrite Z.div_small, Z.mod_small, Z.add_0_r by lia.
  unfold DateFromTime, DaysBeforeMonth, DayWithinYear, InLeapYear. cbv zeta.
  assert (MonthFromTime t = 0 \/ MonthFromTime t = 1 \/ MonthFromTime t = 2
          \/ MonthFromTime t = 3 \/ MonthFromTime t = 4 \/ MonthFromTime t = 5
          \/ MonthFromTime t = 6 \/ MonthFromTime t = 7 \/ MonthFromTime t = 8
          \/ MonthFromTime t = 9 \/ MonthFromTime t = 10 \/ MonthFromTime t = 11)
    as Hcases by lia.
  repeat destruct Hcases as [-> | Hcases]; try rewrite Hcases; lia.
Qed.

(** The clock fields of [t] give back its time within the day, short of
    the milliseconds. *)
Lemma MakeTime_fields (t : Z) :
  MakeTime (HourFromTime t) (MinFromTime t) (SecFromTime t) 0
  = TimeWithinDay t - msFromTime t.
Proof.
  unfold MakeTime, HourFromTime, MinFromTime, SecFromTime, TimeWithinDay,
    msFromTime, msPerHour, msPerMinute, msPerSecond, msPerDay.
  Z.div_mod_to_equations. lia.
Qed.

Lemma MakeDate_Day (t : Z) : MakeDate (Day t) (TimeWithinDay t) = t.
Proof.
  unfold MakeDate, Day, TimeWithinDay, msPerDay. Z.div_mod_to_equations. lia.
Qed.

Lemma Day_MakeDate (day time : Z) :
  0 <= time < msPerDay -> Day (MakeDate day time) = day.
Proof.
  unfold MakeDate, Day, msPerDay. intros Ht.
  symmetry. apply (Z.div_unique _ _ _ time); lia.
Qed.

Lemma TimeWithinDay_MakeDate (day time : Z) :
  0 <= time < msPerDay -> TimeWithinDay (MakeDate day time) = time.
Proof.
  unfold MakeDate, TimeWithinDay, msPerDay. intros Ht.
  symmetry. apply (Z.mod_unique _ _ day time); lia.
Qed.

(** The hour of the twelve-hour clock and the half of the day give the
    hour back. *)
Lemma hour12_roundtrip (h : Z) :
  0 <= h < 24 ->
  (if (if h mod 12 =? 0 then 12 else h mod 12) =? 12 then 0
   else (if h mod 12 =? 0 then 12 else h mod 12))
  + (if 12 <=? h then 12 else 0) = h.
Proof.
  intros Hh.
  destruct (Z.eqb_spec (h mod 12) 0) as [E | E]; simpl;
    [ | destruct (Z.eqb_spec (h mod 12) 12) as [E' | E'] ];
    destruct (Z.leb_spec 12 h);
    Z.div_mod_to_equations; lia.
Qed.

End ESFacts.

(** ** The scheduler *)

Section SchedulerFacts.
Import ES Date Scheduler.
Context `{Host}.

(** On a server whose zone keeps one offset every local time is on the
    clock. *)
Lemma fixed_zone_on_the_clock (t : Z) : fixed_zone -> on_the_clock t.
Proof.
  intros Hz. unfold on_the_clock, LocalTime, UTC.
  rewrite (Hz (t - LocalTZA t false) true), (Hz t false). lia.
Qed.

(** [estTime] is the wall clock of New York, cut to the whole second and
    read as a time of the server's own zone. *)
Lemma estTime_eq (now : Z) :
  estTime now = UTC (msPerSecond * ((now + offsetNewYork now) / msPerSecond)).
Proof.
  unfold estTime, Date_of_USDateTime, toLocaleString_NewYork. cbn [us_month
    us_day us_year us_hour12 us_minute us_second us_pm].
  f_equal.
  set (w := now + offsetNewYork now).
  replace (MonthFromTime w + 1 - 1) with (MonthFromTime w) by lia.
  replace (DateFromTime w) with (DateFromTime w + 0) by lia.
  rewrite MakeDay_fields, Z.add_0_r.
  rewrite hour12_roundtrip by apply time_fields_range.
  rewrite MakeTime_fields.
  unfold MakeDate, Day, TimeWithinDay, msFromTime, msPerDay, msPerSecond.
  Z.div_mod_to_equations. lia.
Qed.

(** When the server's clock shows that reading, [estTime] shows it. *)
Lemma LocalTime_estTime (now : Z) :
  on_the_clock (msPerSecond * ((now + offsetNewYork now) / msPerSecond)) ->
  LocalTime (estTime now)
  = msPerSecond * ((now + offsetNewYork now) / msPerSecond).
Proof. intros Hc. rewrite estTime_eq. exact Hc. Qed.

Section FixedZone.
Hypothesis Hz : fixed_zone.

Lemma LocalTime_UTC (t : Z) : LocalTime (UTC t) = t.
Proof. exact (fixed_zone_on_the_clock t Hz). Qed.

Lemma LocalTime_setHours (d : Date) (h m s ms : Z) :
  LocalTime (setHours d h m s ms)
  = MakeDate (Day (LocalTime d)) (MakeTime h m s ms).
Proof. unfold setHours. cbv zeta. apply LocalTime_UTC. Qed.

(** [d.setDate(d.getDate() + 1)] is the same time of day one day on. *)
Lemma LocalTime_setDate_next (d : Date) :
  LocalTime (setDate d (getDate d + 1))
  = MakeDate (Day (LocalTime d) + 1) (TimeWithinDay (LocalTime d)).
Proof.
  unfold setDate, getDate. cbv zeta.
  now rewrite LocalTime_UTC, MakeDay_fields.
Qed.

Lemma LocalTime_nextFetchTime (now : Z) :
  LocalTime (nextFetchTime now)
  = MakeDate (Day (LocalTime (estTime now))
              + (if 7 <=? getHours (estTime now) then 1 else 0))
             (MakeTime 7 0 0 0).
Proof.
  unfold nextFetchTime. cbv zeta.
  destruct (7 <=? getHours (estTime now)).
  - rewrite LocalTime_setHours, LocalTime_setDate_next.
    rewrite Day_MakeDate by apply time_fields_range. reflexivity.
  - rewrite LocalTime_setHours, Z.add_0_r. reflexivity.
Qed.

(** With one offset, what lies between two instants lies between their
    local times. *)
Lemma getTime_difference (a b : Date) :
  getTime a - getTime b = LocalTime a - LocalTime b.
Proof. unfold getTime, LocalTime. rewrite (Hz a true), (Hz b true). lia. Qed.

Lemma timeUntilNextFetch_eq (now : Z) :
  timeUntilNextFetch now
  = MakeDate (Day (LocalTime (estTime now))
              + (if 7 <=? HourFromTime (LocalTime (estTime now)) then 1 else 0))
             (MakeTime 7 0 0 0)
    - LocalTime (estTime now).
Proof.
  unfold timeUntilNextFetch.
  now rewrite getTime_difference, LocalTime_nextFetchTime.
Qed.

End FixedZone.


End SchedulerFacts.

(** ** The text of a date: ISO text and date text never coincide *)

Section DateTextFacts.
Import ES DateText Date.

Lemma digit_code (d : Z) : (nat_of_ascii (digit d) < 65)%nat.
Proof.
  unfold digit.
  repeat match goal with
         | |- context [match ?x with _ => _ end] => destruct x
         end; cbv; lia.
Qed.

Lemma isoYear_head (y : Z) :
  exists c, head_code (isoYear y) = Some c /\ (c < 65)%nat.
Proof.
  unfold isoYear.
  destruct ((0 <=? y) && (y <=? 9999)).
  - eexists. split; [reflexivity | apply digit_code].
  - destruct (0 <=? y); eexists; (split; [reflexivity | cbv; lia]).
Qed.

Lemma dayName_head (wd : Z) :
  exists c, head_code (dayName wd) = Some c /\ (65 <= c)%nat.
Proof.
  unfold dayName.
  repeat match goal with
         | |- context [match ?x with _ => _ end] => destruct x
         end; eexists; (split; [reflexivity | cbv; lia]).
Qed.

Lemma head_code_append (s t : string) (c : nat) :
  head_code s = Some c -> head_code (s ++ t) = Some c.
Proof. destruct s; [discriminate | trivial]. Qed.

Context `{Host}.

(** [toISOString] starts with a digit or a sign, [toDateString] with the
    capital of a day name. *)
Lemma toISOString_neq_toDateString (a b : Date) :
  toISOString a <> toDateString b.
Proof.
  intros E.
  destruct (isoYear_head (YearFromTime a)) as (c & Hc & Hlt).
  destruct (dayName_head (WeekDay (LocalTime b))) as (c' & Hc' & Hge).
  apply (head_code_append _ ("-" ++ pad2 (MonthFromTime a + 1) ++ "-"
    ++ pad2 (DateFromTime a) ++ "T" ++ pad2 (HourFromTime a) ++ ":"
    ++ pad2 (MinFromTime a) ++ ":" ++ pad2 (SecFromTime a) ++ "."
    ++ pad3 (msFromTime a) ++ "Z")) in Hc.
  fold (toISOString a) in Hc.
  unfold toDateString, DateString in E. cbv zeta in E.
  eapply head_code_append in Hc'. rewrite <- E in Hc'.
  rewrite Hc in Hc'. injection Hc' as ->. lia.
Qed.

End DateTextFacts.

(** ** The fetch cycle *)

Section FetcherFacts.
Import JSString Fetcher.
Context `{Host}.

(** The loop never throws: a feed that fails adds nothing, a feed that
    succeeds adds its articles behind those gathered so far. *)
Lemma fetchLoop_spec (parseURL : string -> Completion Feed)
    (urls : list string) (allItems : list Article) :
  fetchLoop parseURL urls allItems
  = Normal (allItems ++ fetched parseURL urls).
Proof.
  revert allItems. unfold fetched.
  induction urls as [| url rest IH]; intros allItems; simpl.
  - now rewrite app_nil_r.
  - unfold retrieved at 1.
    destruct (parseURL url) as [feed | err]; simpl.
    + rewrite IH. now rewrite <- app_assoc.
    + apply IH.
Qed.

Lemma fetched_all_fail (parseURL : string -> Completion Feed) (urls : list string) :
  Forall (fails parseURL) urls -> fetched parseURL urls = [].
Proof.
  unfold fetched, fails.
  induction 1 as [| url rest Hurl _ IH]; simpl; [reflexivity |].
  now rewrite Hurl.
Qed.

(** A fetch cycle always completes, and replaces the whole cache. *)
Lemma fetchRSSFeeds_eq (env : FetchEnv) (cache : Cache) :
  fetchRSSFeeds env cache
  = {| articles := Array_sort byDate (fetched (parseURL env) FEEDS);
       timestamp := at_Date_now env;
       lastFetchDate := Some (Date.toISOString (at_new_Date env)) |}.
Proof.
  unfold fetchRSSFeeds. cbv zeta.
  rewrite fetchLoop_spec. reflexivity.
Qed.

Lemma omap_retrieved_length (parseURL : string -> Completion Feed)
    (urls : list string) :
  (length (omap (retrieved parseURL) urls) <= length urls)%nat.
Proof.
  induction urls as [| url rest IH]; csimpl; [lia |].
  destruct (retrieved parseURL url); csimpl; lia.
Qed.

(** The fields of an article, read off the item without [||]. *)
Lemma toArticle_fields (feed : Feed) (item : Item) :
  toArticle feed item
  = {| headline := default "" (item_title item);
       summary := match item_contentSnippet item with
                  | Some (String c s) => String c s
                  | _ => default "" (item_summary item)
                  end;
       date := default "" (item_pubDate item);
       link := default "" (item_link item);
       source := default "" (feed_title feed) |}.
Proof.
  unfold toArticle, or_else.
  destruct (item_title item) as [[|] |], (item_contentSnippet item) as [[|] |],
    (item_summary item) as [[|] |], (item_pubDate item) as [[|] |],
    (item_link item) as [[|] |], (feed_title feed) as [[|] |]; reflexivity.
Qed.

Lemma fetched_fields (parseURL : string -> Completion Feed) (urls : list string) :
  fetched parseURL urls
  = concat (map (fun feed =>
                   map (fun item =>
                     {| headline := default "" (item_title item);
                        summary := match item_contentSnippet item with
                                   | Some (String c s) => String c s
                                   | _ => default "" (item_summary item)
                                   end;
                        date := default "" (item_pubDate item);
                        link := default "" (item_link item);
                        source := default "" (feed_title feed) |})
                     (default [] (feed_items feed)))
                (omap (retrieved parseURL) urls)).
Proof.
  unfold fetched. f_equal. apply map_ext. intros feed.
  unfold itemsOf. apply map_ext. intros item. apply toArticle_fields.
Qed.

(** C2, as the code has it: for every list of addresses of which at
    least one fails, the loop of the fetch cycle completes normally, and
    what it gathered is the articles of the feeds that succeeded, feed
    after feed in the order of the list, each article made of the fields
    of its item with the empty text for a missing one; a failing feed
    adds nothing, so fewer feeds are gathered than addresses were given.
    [fetchRSSFeeds] returns nothing: it always completes and leaves in
    the cache what the loop gathered from [FEEDS], sorted, with the
    stamps of the cycle; the cached list holds the same articles as the
    gathered one. *)
Theorem fetch_cycle_skips_failing_feeds (env : FetchEnv) (cache : Cache)
    (urls : list string) :
  Exists (fails (parseURL env)) urls ->
  let article (feed : Feed) (item : Item) : Article :=
    {| headline := default "" (item_title item);
       summary := match item_contentSnippet item with
                  | Some (String c s) => String c s
                  | _ => default "" (item_summary item)
                  end;
       date := default "" (item_pubDate item);
       link := default "" (item_link item);
       source := default "" (feed_title feed) |} in
  let gathered (urls : list string) : list Article :=
    concat (map (fun feed => map (article feed) (default [] (feed_items feed)))
                (omap (retrieved (parseURL env)) urls)) in
  fetchLoop (parseURL env) urls [] = Normal (gathered urls)
  /\ (length (omap (retrieved (parseURL env)) urls) < length urls)%nat
  /\ fetchRSSFeeds env cache
     = {| articles := Array_sort byDate (gathered FEEDS);
          timestamp := at_Date_now env;
          lastFetchDate := Some (Date.toISOString (at_new_Date env)) |}
  /\ Permutation (articles (fetchRSSFeeds env cache)) (gathered FEEDS).
Proof.
  intros Hfail. cbv beta zeta.
  rewrite fetchRSSFeeds_eq. cbn [articles].
  rewrite <- !fetched_fields.
  split; [apply fetchLoop_spec |].
  split; [| split; [reflexivity | apply Array_sort_permutes]].
  induction Hfail as [url rest Hurl | url rest _ IH]; csimpl.
  - rewrite Hurl. pose proof (omap_retrieved_length (parseURL env) rest). lia.
  - pose proof (omap_retrieved_length (parseURL env) rest).
    destruct (retrieved (parseURL env) url); csimpl; lia.
Qed.

End FetcherFacts.

(** ** The sort of the fetch cycle *)

Section SortFacts.
Import Fetcher.
Context `{Host}.

Lemma Array_sort_length {A} (cmp : A -> A -> option Z) (l : list A) :
  length (Array_sort cmp l) = length l.
Proof. apply Permutation_length, Array_sort_permutes. Qed.

Lemma Array_sort_nil_iff {A} (cmp : A -> A -> option Z) (l : list A) :
  Array_sort cmp l = [] <-> l = [].
Proof.
  split; intros E.
  - apply length_zero_iff_nil. rewrite <- (Array_sort_length cmp), E. reflexivity.
  - subst. apply Permutation_nil. symmetry. apply Array_sort_permutes.
Qed.

(** A comparison in which a date is empty gives [NaN]: the sort reads it
    as a tie. *)
Lemma byDate_empty (a b : Article) :
  date a = "" \/ date b = "" -> byDate a b = None.
Proof.
  unfold byDate. intros [E | E]; rewrite E, Date_parse_empty;
    [destruct (Date_parse (date b)) |]; reflexivity.
Qed.

(** Where every comparison is a tie the comparator is consistent. *)
Lemma ties_consistent {A} (cmp : A -> A -> option Z) (l : list A) :
  (forall a b, In a l -> In b l -> JSArray.SortCompare cmp a b = 0) ->
  JSArray.consistent cmp l.
Proof.
  intros Hties a b c Ha Hb Hc.
  rewrite (Hties a a), (Hties a b), (Hties b a), (Hties b c), (Hties a c)
    by assumption.
  repeat split; trivial; lia.
Qed.

Lemma consistent_incl {A} (cmp : A -> A -> option Z) (l l' : list A) :
  (forall a, In a l' -> In a l) ->
  JSArray.consistent cmp l -> JSArray.consistent cmp l'.
Proof. intros Hincl Hc a b c Ha Hb Hc'. apply Hc; now apply Hincl. Qed.

(** For a consistent comparator "does not sort after" is transitive. *)
Lemma not_after_trans {A} (cmp : A -> A -> option Z) (l : list A) (a b c : A) :
  JSArray.consistent cmp l -> In a l -> In b l -> In c l ->
  JSArray.SortCompare cmp a b <= 0 -> JSArray.SortCompare cmp b c <= 0 ->
  JSArray.SortCompare cmp a c <= 0.
Proof.
  intros Hcons Ha Hb Hc Hab Hbc.
  destruct (Hcons a b c Ha Hb Hc) as (_ & Hsym_ab & Htie & Hlt & _ & _).
  destruct (Hcons b c a Hb Hc Ha) as (_ & Hsym_bc & _ & Hlt_bca & _ & _).
  destruct (Hcons c a b Hc Ha Hb) as (_ & _ & _ & Hlt_cab & _ & Hanti).
  lia.
Qed.

Lemma insert_not_after {A} (cmp : A -> A -> option Z) (x : A) (l : list A) :
  JSArray.consistent cmp (x :: l) ->
  StronglySorted (fun a b => JSArray.SortCompare cmp a b <= 0) l ->
  StronglySorted (fun a b => JSArray.SortCompare cmp a b <= 0)
    (JSArray.insert cmp x l).
Proof.
  intros Hcons Hs. induction Hs as [| y l Hs IH Hy]; cbn [JSArray.insert].
  - repeat constructor.
  - destruct (Z.ltb_spec 0 (JSArray.SortCompare cmp x y)) as [Hlt | Hge].
    + constructor.
      * apply IH. apply (consistent_incl cmp (x :: y :: l)); [| exact Hcons].
        intros a [-> | Ha]; [now left | now right; right].
      * rewrite (JSArray.insert_permutes cmp x l). constructor; [| exact Hy].
        destruct (Hcons y x x) as (_ & _ & _ & _ & _ & Hanti);
          [now right; left | now left | now left |].
        lia.
    + constructor; [now constructor |].
      constructor; [exact Hge |].
      rewrite Forall_forall in Hy. apply Forall_forall. intros z Hz.
      apply (not_after_trans cmp (x :: y :: l) x y z); trivial;
        [now left | now right; left | now right; right | now apply Hy].
Qed.

(** For a consistent comparator the stable sort sorts: no element sorts
    after one that stands behind it. *)
Lemma stable_sort_not_after {A} (cmp : A -> A -> option Z) (l : list A) :
  JSArray.consistent cmp l ->
  StronglySorted (fun a b => JSArray.SortCompare cmp a b <= 0)
    (JSArray.stable_sort cmp l).
Proof.
  induction l as [| x l IH]; intros Hcons; cbn [JSArray.stable_sort];
    [constructor |].
  apply insert_not_after.
  - apply (consistent_incl cmp (x :: l)); [| exact Hcons].
    intros a [-> | Ha]; [now left | right].
    now apply (Permutation_in _ (JSArray.stable_sort_permutes cmp l)).
  - apply IH. apply (consistent_incl cmp (x :: l)); [| exact Hcons].
    intros a Ha. now right.
Qed.

(** Among articles whose dates all parse the comparator is the order of
    the time values, and so consistent. *)
Lemma byDate_consistent (l : list Article) :
  Forall parseable l -> JSArray.consistent byDate l.
Proof.
  intros Hp a b c Ha Hb Hc. rewrite Forall_forall in Hp.
  pose proof (Hp a Ha) as Pa. pose proof (Hp b Hb) as Pb.
  pose proof (Hp c Hc) as Pc.
  unfold parseable in Pa, Pb, Pc. unfold JSArray.SortCompare, byDate.
  destruct (Date_parse (date a)) as [ta |]; [| contradiction].
  destruct (Date_parse (date b)) as [tb |]; [| contradiction].
  destruct (Date_parse (date c)) as [tc |]; [| contradiction].
  repeat split; lia.
Qed.

Lemma date_desc_trans (a b c : Article) :
  date_desc a b -> date_desc b c -> date_desc a c.
Proof.
  intros (ta & tb & Ha & Hb & Hab) (tb' & tc & Hb' & Hc & Hbc).
  rewrite Hb in Hb'. injection Hb' as <-.
  exists ta, tc. repeat split; trivial. lia.
Qed.

Lemma SortCompare_byDate (x y : Article) (tx ty : Z) :
  Date_parse (date x) = Some tx -> Date_parse (date y) = Some ty ->
  JSArray.SortCompare byDate x y = ty - tx.
Proof. intros Ex Ey. unfold JSArray.SortCompare, byDate. now rewrite Ex, Ey. Qed.

Lemma insert_sorted (x : Article) (l : list Article) :
  parseable x -> Forall parseable l ->
  StronglySorted date_desc l ->
  StronglySorted date_desc (JSArray.insert byDate x l).
Proof.
  intros Hx Hl Hs. induction Hs as [| y l Hs IH Hy]; cbn [JSArray.insert].
  - repeat constructor.
  - inversion Hl as [| ? ? Hpy Hpl]; subst.
    unfold parseable in Hx, Hpy.
    destruct (Date_parse (date x)) as [tx |] eqn:Ex; [| contradiction].
    destruct (Date_parse (date y)) as [ty |] eqn:Ey; [| contradiction].
    rewrite (SortCompare_byDate x y tx ty Ex Ey).
    destruct (Z.ltb_spec 0 (ty - tx)) as [Hlt | Hge].
    + constructor; [now apply IH |].
      rewrite (JSArray.insert_permutes byDate x l). constructor; [| exact Hy].
      exists ty, tx. repeat split; trivial. lia.
    + assert (Hxy : date_desc x y) by (exists tx, ty; repeat split; trivial; lia).
      constructor; [now constructor |].
      constructor; [exact Hxy |].
      eapply Forall_impl; [| exact Hy].
      intros z Hyz. now apply (date_desc_trans x y z).
Qed.

(** When every date parses the stable sort leaves the list descending by
    date. *)
Lemma stable_sort_sorted (l : list Article) :
  Forall parseable l -> StronglySorted date_desc (JSArray.stable_sort byDate l).
Proof.
  induction 1 as [| x l Hx Hl IH]; cbn [JSArray.stable_sort]; [constructor |].
  apply insert_sorted; trivial.
  now rewrite (JSArray.stable_sort_permutes byDate l).
Qed.

(** C3, as the code has it: after a fetch cycle in which the date of
    every fetched article parses, the cached list holds the fetched
    articles sorted descending by parsed date. *)
Theorem cache_sorted_when_dates_parse (env : FetchEnv) (cache : Cache) :
  Forall parseable (fetched (parseURL env) FEEDS) ->
  StronglySorted date_desc (articles (fetchRSSFeeds env cache))
  /\ Permutation (articles (fetchRSSFeeds env cache))
                 (fetched (parseURL env) FEEDS).
Proof.
  intros Hp. rewrite fetchRSSFeeds_eq. cbn [articles]. split.
  - rewrite Array_sort_consistent by now apply byDate_consistent.
    now apply stable_sort_sorted.
  - apply Array_sort_permutes.
Qed.

End SortFacts.

(** ** The routes over the article cache *)

Section NewsFacts.
Import Date Fetcher Scheduler News.
Context `{Host}.

(** After a fetch cycle the date comparison of [shouldFetchToday] never
    finds the two texts equal: the cache holds an ISO text, the comparison
    offers a date text.  Only the hour decides. *)
Lemma shouldFetchToday_after_fetch (now : Z) (env : FetchEnv) (cache : Cache) :
  shouldFetchToday now (fetchRSSFeeds env cache) = (getHours (estTime now) =? 7).
Proof.
  rewrite fetchRSSFeeds_eq. unfold shouldFetchToday, strict_neq.
  cbn [lastFetchDate].
  destruct (String.eqb_spec (toISOString (at_new_Date env))
              (toDateString (estTime now))) as [E | _].
  - now apply toISOString_neq_toDateString in E.
  - apply andb_true_r.
Qed.

Lemma fetchRSSFeeds_nonempty (env : FetchEnv) (cache : Cache) :
  productive env -> articles (fetchRSSFeeds env cache) <> [].
Proof.
  unfold productive. intros Hp. rewrite fetchRSSFeeds_eq. cbn [articles].
  intros E. apply Array_sort_nil_iff in E. exact (Hp E).
Qed.

Lemma fetchRSSFeeds_all_fail (env : FetchEnv) (cache : Cache) :
  Forall (fails (parseURL env)) FEEDS ->
  fetchRSSFeeds env cache
  = {| articles := [];
       timestamp := at_Date_now env;
       lastFetchDate := Some (toISOString (at_new_Date env)) |}.
Proof.
  intros Hfail. rewrite fetchRSSFeeds_eq.
  rewrite fetched_all_fail by exact Hfail.
  now rewrite (proj2 (Array_sort_nil_iff byDate [])).
Qed.

Lemma nonempty_length {A} (l : list A) : l <> [] -> (0 <? length l)%nat = true.
Proof. destruct l; [congruence | reflexivity]. Qed.

Lemma served_articles_news (cache : Cache) (cacheStatus : string) :
  served_articles (res_json 200 (news_body cache cacheStatus))
  = Some (map Article_json (articles cache)).
Proof. reflexivity. Qed.

Lemma carries_articles_news (cache : Cache) (cacheStatus : string) :
  articles cache <> [] ->
  carries_articles (Some (res_json 200 (news_body cache cacheStatus))).
Proof.
  intros Hne. exists (res_json 200 (news_body cache cacheStatus)),
    (map Article_json (articles cache)).
  split; [reflexivity |]. split; [reflexivity |].
  split; [apply served_articles_news |].
  intros E. apply map_eq_nil in E. exact (Hne E).
Qed.

Lemma getNews_when_caught_up (now : Z) (catchUp initial : FetchEnv) (cache : Cache) :
  shouldFetchToday now cache = true ->
  articles (fetchRSSFeeds catchUp cache) <> [] ->
  getNews now catchUp initial cache
  = (res_json 200 (news_body (fetchRSSFeeds catchUp cache) "serving cached data"),
     fetchRSSFeeds catchUp cache).
Proof.
  intros E Hne. cbv beta zeta delta [getNews]. rewrite E.
  cbv beta iota. rewrite (nonempty_length _ Hne). reflexivity.
Qed.

Lemma getNews_from_cache (now : Z) (catchUp initial : FetchEnv) (cache : Cache) :
  shouldFetchToday now cache = false ->
  articles cache <> [] ->
  getNews now catchUp initial cache
  = (res_json 200 (news_body cache "serving cached data"), cache).
Proof.
  intros E Hne. cbv beta zeta delta [getNews]. rewrite E.
  cbv beta iota. rewrite (nonempty_length _ Hne). reflexivity.
Qed.

Lemma cycles_of_caught_up (now : Z) (catchUp initial : FetchEnv) (cache : Cache) :
  shouldFetchToday now cache = true ->
  Forall productive (cycles_of (GetNews now catchUp initial) cache) ->
  productive catchUp.
Proof.
  intros E. cbv beta iota zeta delta [cycles_of]. rewrite E. cbv beta iota.
  intros Hprod. apply Forall_app in Hprod as [Hprod _].
  exact (Forall_inv Hprod).
Qed.

(** With articles in the cache, a [GET /api/news] whose catch-up cycle,
    if it runs, gathers something answers from the cache it leaves, and
    that cache holds articles. *)
Lemma getNews_gathering (now : Z) (catchUp initial : FetchEnv) (cache : Cache) :
  articles cache <> [] ->
  Forall productive (cycles_of (GetNews now catchUp initial) cache) ->
  exists cache',
    getNews now catchUp initial cache
    = (res_json 200 (news_body cache' "serving cached data"), cache')
    /\ articles cache' <> [].
Proof.
  intros Hne Hprod.
  destruct (shouldFetchToday now cache) eqn:Eshould.
  - pose proof (cycles_of_caught_up _ _ _ _ Eshould Hprod) as Hcatch.
    pose proof (fetchRSSFeeds_nonempty catchUp cache Hcatch) as Hne'.
    exists (fetchRSSFeeds catchUp cache).
    split; [now apply getNews_when_caught_up | exact Hne'].
  - exists cache. split; [now apply getNews_from_cache | exact Hne].
Qed.

Lemma step_gathering (e : Event) (cache : Cache) :
  articles cache <> [] -> e <> ClearCache ->
  Forall productive (cycles_of e cache) ->
  articles (snd (step e cache)) <> []
  /\ (is_GetNews e -> carries_articles (fst (step e cache))).
Proof.
  intros Hne Hclear Hprod.
  destruct e as [now catchUp initial | | env | env now].
  - destruct (getNews_gathering now catchUp initial cache Hne Hprod)
      as (cache' & Hget & Hne').
    unfold step. rewrite Hget. cbn [fst snd]. split; [exact Hne' |].
    intros _. now apply carries_articles_news.
  - contradiction.
  - unfold cycles_of in Hprod. apply Forall_inv in Hprod.
    unfold step, fetchNow. cbn [fst snd is_GetNews].
    split; [now apply fetchRSSFeeds_nonempty | contradiction].
  - unfold cycles_of in Hprod. apply Forall_inv in Hprod.
    unfold step, timerFires. cbn [fst snd is_GetNews].
    split; [now apply fetchRSSFeeds_nonempty | contradiction].
Qed.

Lemma serve_cons (e : Event) (rest : list Event) (cache : Cache) :
  serve (e :: rest) cache
  = (fst (step e cache) :: fst (serve rest (snd (step e cache))),
     snd (serve rest (snd (step e cache)))).
Proof.
  cbn [serve]. destruct (step e cache) as [r c]. cbn [fst snd].
  now destruct (serve rest c).
Qed.

(** C4, as the code has it: once the cache holds articles, every
    [GET /api/news] is answered 200 with a list of articles that is not
    empty, for as long as the cache is not cleared and every fetch cycle
    that runs (of the timer, of the catch-up, forced, or of a request)
    gathers at least one article; a request that runs no cycle is
    answered from the cache whatever the feeds would do.  Nothing guards
    the cache beyond that: from the cache so reached, a fetch cycle in
    which every feed fails leaves the cache empty. *)
Theorem articles_kept_while_fetches_gather (events : list Event) (cache : Cache) :
  articles cache <> [] ->
  gathering events cache ->
  articles (snd (serve events cache)) <> []
  /\ Forall2 (fun e answer => is_GetNews e -> carries_articles answer)
             events (fst (serve events cache))
  /\ forall env, Forall (fails (parseURL env)) FEEDS ->
       articles (fetchRSSFeeds env (snd (serve events cache))) = [].
Proof.
  intros Hne Hkeep.
  assert (Hmain : articles (snd (serve events cache)) <> []
    /\ Forall2 (fun e answer => is_GetNews e -> carries_articles answer)
               events (fst (serve events cache))).
  { revert cache Hne Hkeep.
    induction events as [| e rest IH]; intros cache Hne Hkeep.
    - cbn [serve fst snd]. split; [exact Hne | constructor].
    - cbn [gathering] in Hkeep. destruct Hkeep as (Hclear & Hprod & Hrest).
      destruct (step_gathering e cache Hne Hclear Hprod) as [Hne' Hr].
      destruct (IH _ Hne' Hrest) as [IH1 IH2].
      rewrite serve_cons. cbn [fst snd]. split; [exact IH1 |].
      constructor; [exact Hr | exact IH2]. }
  destruct Hmain as [H1 H2]. split; [exact H1 |]. split; [exact H2 |].
  intros env Hfail. now rewrite fetchRSSFeeds_all_fail.
Qed.

(** C6, as the code has it: [POST /api/clear-cache] puts the cache back
    to its initial state; a [GET /api/news] that follows while no feed is
    reachable answers 200 with no articles, and with [lastFetch] the ISO
    text of the instant of the fetch cycle it ran, which also stays in the
    cache. *)
Theorem clear_then_news_when_no_feed_answers
    (now : Z) (catchUp initial : FetchEnv) (cache : Cache) :
  Forall (fails (parseURL catchUp)) FEEDS ->
  Forall (fails (parseURL initial)) FEEDS ->
  snd (clearCache cache) = initial_cache
  /\ getNews now catchUp initial (snd (clearCache cache))
     = (res_json 200
          (JObject [("articles", JArray []);
                    ("lastFetch", JString (toISOString (at_new_Date initial)));
                    ("cacheStatus", JString "initial fetch")]),
        {| articles := [];
           timestamp := at_Date_now initial;
           lastFetchDate := Some (toISOString (at_new_Date initial)) |}).
Proof.
  intros Hc Hi. split; [reflexivity |].
  unfold getNews, clearCache. cbn [snd].
  destruct (shouldFetchToday now _);
    rewrite ?(fetchRSSFeeds_all_fail catchUp) by exact Hc;
    cbn [articles length Nat.ltb Nat.leb];
    rewrite (fetchRSSFeeds_all_fail initial) by exact Hi; reflexivity.
Qed.

(** C10: [POST /api/fetch-now] always answers 200 with [message],
    [articlesCount] and [lastFetch]; the count is the length of the cached
    list after the cycle it forced.  When every feed fails the count is 0:
    the articles cached before are gone, the cache holds the empty
    list. *)
Theorem fetchNow_answer (env : FetchEnv) (cache : Cache) :
  let '(r, cache') := fetchNow env cache in
  cache' = fetchRSSFeeds env cache
  /\ status r = 200
  /\ body r = JsonBody (JObject
       [("message", JString "Manual fetch completed");
        ("articlesCount", JNumber (Z.of_nat (length (articles cache'))));
        ("lastFetch", lastFetch_json (lastFetchDate cache'))])
  /\ (Forall (fails (parseURL env)) FEEDS ->
      articles cache' = []
      /\ body r = JsonBody (JObject
           [("message", JString "Manual fetch completed");
            ("articlesCount", JNumber 0);
            ("lastFetch", JString (toISOString (at_new_Date env)))])).
Proof.
  unfold fetchNow. repeat split; trivial.
  all: cbn [body res_json]; now rewrite fetchRSSFeeds_all_fail.
Qed.

End NewsFacts.

(** ** [POST /api/summarize] *)

Section SummarizeFacts.
Import JSString JSValue Summarize.

Lemma truthy_nonempty (s : string) : s <> "" -> truthy s = true.
Proof. destruct s; [congruence | reflexivity]. Qed.

(** A call that fails in transport is answered with 500 and the message
    of the error. *)
Lemma summarize_transport_failure (text : string)
    (api : UpstreamRequest -> Completion FetchResponse) (err : string) :
  text <> "" ->
  api (chat_request text) = Throw err ->
  summarize (Some text) api
  = (res_json 500 (JObject [("error", JString "Failed to summarize");
                            ("details", JString err)]),
     [chat_request text]).
Proof.
  intros Htext Hapi. unfold summarize. change (default "" (Some text)) with text.
  rewrite (truthy_nonempty _ Htext). cbn [negb].
  rewrite Hapi. reflexivity.
Qed.

(** Whatever the status of the upstream answer, a body that parses is read
    for its first choice; [res.ok] is never consulted. *)
Lemma summarize_parsed_body (text : string)
    (api : UpstreamRequest -> Completion FetchResponse)
    (openaiRes : FetchResponse) (data : JSON) (summaryRaw : string) :
  text <> "" ->
  api (chat_request text) = Normal openaiRes ->
  res_json_body openaiRes = Normal data ->
  extract_summaryRaw data = Normal summaryRaw ->
  summarize (Some text) api
  = (res_json 200 (JObject [("summary", JString (formatSummary summaryRaw))]),
     [chat_request text]).
Proof.
  intros Htext Hapi Hbody Hraw. unfold summarize. change (default "" (Some text)) with text.
  rewrite (truthy_nonempty _ Htext). cbn [negb].
  rewrite Hapi. cbn. rewrite Hbody. cbn. rewrite Hraw. reflexivity.
Qed.

(** What is read off a chat completion is the text of its first choice,
    trimmed. *)
Lemma extract_first_content (data : JSON) (content : string) :
  first_content data content -> extract_summaryRaw data = Normal (trim content).
Proof.
  intros (members & choice & others & message & -> & Hchoices & Hmessage & Hcontent).
  unfold extract_summaryRaw, get. cbn [mbind Completion_bind bindC].
  rewrite Hchoices. cbn [opt_index0 head opt_get]. rewrite Hmessage.
  cbn [opt_get]. rewrite Hcontent.
  cbn [opt_trim mbind Completion_bind bindC mret Completion_ret]. f_equal.
  unfold or_else. now destruct (trim content).
Qed.

(** [summaryRaw.startsWith('-')] for a text that starts so. *)
Lemma startsWith_hyphen (rest : string) : startsWith (String "-" rest) "-" = true.
Proof. unfold startsWith. destruct rest; reflexivity. Qed.

Lemma split_LF_line (s : string) : no_LF s = true -> split_LF s = [s].
Proof.
  induction s as [| c s IH]; cbn; [reflexivity |].
  intros [Hc Hs]%andb_true_iff. apply negb_true_iff in Hc.
  rewrite Hc, (IH Hs). reflexivity.
Qed.

(** A line, a line feed, and a text that does not start with a line
    feed: the line is the first piece. *)
Lemma split_LF_lines (s t : string) (c : ascii) :
  no_LF s = true -> Ascii.eqb c LF = false ->
  split_LF (s ++ String LF (String c t)) = s :: split_LF (String c t).
Proof.
  intros Hs Hc. induction s as [| a s IH].
  - change (EmptyString ++ String LF (String c t))%string
      with (String LF (String c t)).
    cbn [split_LF]. rewrite Ascii.eqb_refl, Hc. reflexivity.
  - cbn in Hs. apply andb_true_iff in Hs as [Ha Hs]. apply negb_true_iff in Ha.
    change ((String a s ++ String LF (String c t))%string)
      with (String a (s ++ String LF (String c t))).
    cbn [split_LF]. rewrite Ha, (IH Hs). reflexivity.
Qed.

Lemma trimStart_idempotent (s : string) : trimStart (trimStart s) = trimStart s.
Proof.
  induction s as [| c s IH]; cbn; [reflexivity |].
  destruct (isWhiteSpace c) eqn:E; [exact IH |].
  cbn. now rewrite E.
Qed.

(** Marker and white space go, the item stays. *)
Lemma trim_strip_bullet (item : string) :
  trim item = item -> trim (strip_bullet ("- " ++ item)) = item.
Proof.
  intros Hitem. unfold strip_bullet.
  change ("- " ++ item)%string with (String "-" (String " " item)).
  change (trimStart (String "-" (String " " item)))
    with (String "-" (String " " item)).
  change (trimStart (String " " item)) with (trimStart item).
  unfold trim. rewrite trimStart_idempotent. exact Hitem.
Qed.

Lemma no_LF_bullet_line (item : string) :
  no_LF item = true -> no_LF ("- " ++ item) = true.
Proof.
  intros Hitem.
  change ("- " ++ item)%string with (String "-" (String " " item)).
  cbn. exact Hitem.
Qed.

(** The items of such a bullet list are read back as they were
    written. *)
Lemma bullet_items_bullet_text (items : list string) :
  Forall plain items -> bullet_items (bullet_text items) = items.
Proof.
  unfold bullet_items.
  induction 1 as [| item rest (Hne & Hlf & Htrim) Hrest IH]; [reflexivity |].
  destruct rest as [| item' rest'].
  - cbn [bullet_text].
    rewrite split_LF_line by now apply no_LF_bullet_line.
    cbn [map List.filter]. rewrite trim_strip_bullet by exact Htrim.
    now rewrite (truthy_nonempty _ Hne).
  - change (bullet_text (item :: item' :: rest'))
      with (("- " ++ item) ++ String LF (bullet_text (item' :: rest')))%string.
    assert (Hhead : exists t, bullet_text (item' :: rest') = String "-"%char t)
      by (destruct rest'; eexists; reflexivity).
    destruct Hhead as [t Ht]. rewrite Ht in *.
    rewrite split_LF_lines; [| now apply no_LF_bullet_line | reflexivity].
    cbn [map List.filter]. rewrite trim_strip_bullet by exact Htrim.
    rewrite (truthy_nonempty _ Hne). now rewrite IH.
Qed.

Lemma bullet_text_head (items : list string) :
  items <> [] -> exists rest, bullet_text items = String "-"%char rest.
Proof.
  destruct items as [| item [| item' rest]]; [contradiction | |];
    intros _; eexists; reflexivity.
Qed.

(** C8, as the code has it: for a non-empty text and a chat completion
    whose first choice carries [content], the handler first trims
    [content].  When the trimmed content starts with a hyphen, the
    summary is the unordered list of its bullets, one [<li>] for each
    line that is left non-empty once the bullet marker and the white
    space around it are removed; otherwise the summary is the trimmed
    content.  A trimmed content that is a bullet list of plain items,
    one "- item" a line, becomes the list of exactly those items; for the
    content "- a", line feed, "- b" the summary is the list of "a" and
    "b". *)
Theorem summarize_formats_trimmed_content (text : string)
    (api : UpstreamRequest -> Completion FetchResponse)
    (openaiRes : FetchResponse) (data : JSON) (content : string) :
  text <> "" ->
  api (chat_request text) = Normal openaiRes ->
  res_json_body openaiRes = Normal data ->
  first_content data content ->
  let list_of (items : list string) : string :=
    (ul_open ++ join_empty (map (fun item => "<li>" ++ item ++ "</li>") items)
       ++ "</ul>")%string in
  fst (summarize (Some text) api)
  = res_json 200 (JObject [("summary", JString
      match trim content with
      | String "-" _ => list_of (bullet_items (trim content))
      | trimmed => trimmed
      end)])
  /\ (forall items, items <> [] -> Forall plain items ->
      trim content = bullet_text items ->
      fst (summarize (Some text) api)
      = res_json 200 (JObject [("summary", JString (list_of items))]))
  /\ (content = ("- a" ++ String LF "- b")%string ->
      fst (summarize (Some text) api)
      = res_json 200 (JObject [("summary", JString
          ("<ul style=" ++ dquote ++ "padding-left:1.5em;list-style:disc;" ++ dquote
             ++ "><li>a</li><li>b</li></ul>"))])).
Proof.
  intros Htext Hapi Hbody Hcontent. cbv zeta.
  rewrite (summarize_parsed_body text api openaiRes data (trim content))
    by (try assumption; now apply extract_first_content).
  cbn [fst]. split; [| split].
  - unfold formatSummary, startsWith.
    destruct (trim content) as [| c rest]; [reflexivity |].
    destruct c as [[] [] [] [] [] [] [] []]; try reflexivity.
    destruct rest; reflexivity.
  - intros items Hne Hplain E. rewrite E. unfold formatSummary.
    rewrite bullet_items_bullet_text by exact Hplain.
    destruct (bullet_text_head items Hne) as [rest ->].
    now rewrite startsWith_hyphen.
  - intros ->. reflexivity.
Qed.

End SummarizeFacts.

(** ** [POST /api/tts] *)

Section TTSFacts.
Import JSString TTS.
Context `{Host}.

Lemma append_neq_self (s t : string) : t <> "" -> (s ++ t)%string <> s.
Proof.
  intros Ht E. apply Ht. induction s as [| c s IH]; cbn in E; [exact E |].
  injection E as E. now apply IH.
Qed.

Lemma cacheFile_neq_cacheDir (text : string) : cacheFile text <> cacheDir.
Proof.
  unfold cacheFile, path_join. cbv zeta. apply append_neq_self. discriminate.
Qed.

Lemma exists_in_file (disk : FileSystem) (p : string) (bytes : list Byte.byte) :
  files disk !! p = Some bytes -> exists_in disk p = true.
Proof.
  intros Hp. unfold exists_in. rewrite Hp.
  rewrite (bool_decide_eq_true_2 (is_Some (Some bytes))) by eauto.
  apply orb_true_r.
Qed.

Lemma exists_in_false (disk : FileSystem) (p : string) :
  exists_in disk p = false -> (p ∉ dirs disk) /\ files disk !! p = None.
Proof.
  unfold exists_in. intros [Hd Hf]%orb_false_iff.
  apply bool_decide_eq_false in Hd, Hf. split; [exact Hd |].
  destruct (files disk !! p) eqn:E; [| reflexivity].
  exfalso. apply Hf. eauto.
Qed.

(** For a text that is a non-empty string the handler is its [try]. *)
Lemma tts_string (text : string) (env : TtsEnv) :
  text <> "" ->
  tts (Some (JString text)) env
  = try_catchIO
      (dirExists ← existsSync cacheDir;
       _ ← (if negb dirExists then mkdirSync env cacheDir else mret tt);
       fileExists ← existsSync (cacheFile text);
       if fileExists : bool then
         '(size, bytes) ← readCached (cacheFile text);
         mret {| status := 200;
                 headers := audio_headers size;
                 body := BinaryBody bytes |}
       else
         openaiRes ← fetch env (speech_request text);
         if negb (res_ok openaiRes) then
           errorData ← liftC (res_json_body openaiRes);
           mret (res_json (res_status openaiRes)
                   (JObject [("error", JString "TTS failed");
                             ("details", errorData)]))
         else
           _ ← try_catchIO (writeFileSync env (cacheFile text) (res_bytes openaiRes))
                 (fun writeErr => mret tt);
           mret {| status := 200;
                   headers := audio_headers (Z.of_nat (length (res_bytes openaiRes)));
                   body := BinaryBody (res_bytes openaiRes) |})
      (fun err =>
         mret (res_json 500
                 (JObject [("error", JString "Failed to generate speech");
                           ("details", JString err)]))).
Proof.
  intros Htext. unfold tts. cbn [JSValue.ToBoolean].
  rewrite (truthy_nonempty _ Htext). reflexivity.
Qed.

(** A request for a text whose file is in the cache directory: no call,
    no change, the file is the body. *)
Lemma tts_hit (text : string) (env : TtsEnv) (w : World) (bytes : list Byte.byte) :
  text <> "" ->
  exists_in (fs w) cacheDir = true ->
  files (fs w) !! cacheFile text = Some bytes ->
  tts (Some (JString text)) env w
  = (Normal {| status := 200;
               headers := audio_headers (Z.of_nat (length bytes));
               body := BinaryBody bytes |}, w).
Proof.
  intros Htext Hdir Hfile. rewrite (tts_string _ _ Htext).
  unfold try_catchIO, mbind, IO_bind, existsSync.
  rewrite Hdir. cbn [negb]. unfold mret, IO_ret.
  rewrite (exists_in_file _ _ _ Hfile).
  unfold readCached. rewrite Hfile. reflexivity.
Qed.

(** A request for a text without a file, when the call succeeds and the
    file can be written: one call, one file, the audio is the body. *)
Lemma tts_miss (text : string) (env : TtsEnv) (w : World)
    (openaiRes : FetchResponse) :
  text <> "" ->
  exists_in (fs w) (cacheFile text) = false ->
  exists_in (fs w) cacheDir = true \/ mkdir_error env = None ->
  api env (speech_request text) = Normal openaiRes ->
  res_ok openaiRes = true ->
  write_error env = None ->
  tts (Some (JString text)) env w
  = (Normal {| status := 200;
               headers := audio_headers (Z.of_nat (length (res_bytes openaiRes)));
               body := BinaryBody (res_bytes openaiRes) |},
     {| fs := {| dirs := if exists_in (fs w) cacheDir then dirs (fs w)
                         else {[cacheDir]} ∪ dirs (fs w);
                 files := <[cacheFile text := res_bytes openaiRes]> (files (fs w)) |};
        sent := sent w ++ [speech_request text] |}).
Proof.
  intros Htext Hfile Hdir Hapi Hok Hwrite.
  destruct (exists_in_false _ _ Hfile) as [Hnd Hnf].
  rewrite (tts_string _ _ Htext).
  unfold try_catchIO, mbind, IO_bind, existsSync.
  destruct (exists_in (fs w) cacheDir) eqn:Edir; cbn [negb].
  - unfold mret, IO_ret. rewrite Hfile.
    unfold fetch. rewrite Hapi, Hok. cbn [negb].
    unfold writeFileSync. rewrite Hwrite. destruct w as [[d f] s]. reflexivity.
  - destruct Hdir as [Hdir | Hmk]; [discriminate |].
    unfold mkdirSync. rewrite Hmk. cbn [fs].
    assert (Hfile' : exists_in
      {| dirs := {[cacheDir]} ∪ dirs (fs w); files := files (fs w) |}
      (cacheFile text) = false).
    { unfold exists_in. cbn [dirs files]. rewrite Hnf.
      apply orb_false_iff. split; apply bool_decide_eq_false.
      - intros [Hin | Hin]%elem_of_union; [| contradiction].
        apply elem_of_singleton in Hin. now apply cacheFile_neq_cacheDir in Hin.
      - intros [? ?]. discriminate. }
    rewrite Hfile'.
    unfold fetch. rewrite Hapi, Hok. cbn [negb].
    unfold writeFileSync. rewrite Hwrite. reflexivity.
Qed.

(** C7, as the code has it: of two successive requests with the same
    non-empty text, when no file of the text's digest is there beforehand,
    the cache directory is there or can be made, the upstream call of the
    first request succeeds and its file can be written, the first request
    makes exactly one upstream call and writes exactly one file, named by
    the digest; the second makes no call, leaves the disk as it is and
    answers with the bytes of that file under the headers [audio/mpeg],
    the length, and [public, max-age=3600]. *)
Theorem tts_second_request_from_cache (text : string) (env1 env2 : TtsEnv)
    (disk : FileSystem) (openaiRes : FetchResponse) :
  text <> "" ->
  exists_in disk (cacheFile text) = false ->
  exists_in disk cacheDir = true \/ mkdir_error env1 = None ->
  api env1 (speech_request text) = Normal openaiRes ->
  res_ok openaiRes = true ->
  write_error env1 = None ->
  let audio := res_bytes openaiRes in
  let served := {| status := 200;
                   headers := [("Content-Type", HText "audio/mpeg");
                               ("Content-Length", HNumber (Z.of_nat (length audio)));
                               ("Cache-Control", HText "public, max-age=3600")];
                   body := BinaryBody audio |} in
  let '(r1, disk1, sent1) := post_tts (Some (JString text)) env1 disk in
  let '(r2, disk2, sent2) := post_tts (Some (JString text)) env2 disk1 in
  sent1 = [speech_request text]
  /\ files disk1
     = <[path_join cacheDir (sha256_hex text ++ ".mp3") := audio]> (files disk)
  /\ r1 = Some served
  /\ sent2 = []
  /\ disk2 = disk1
  /\ r2 = Some served.
Proof.
  intros Htext Hfile Hdir Hapi Hok Hwrite. cbv zeta.
  unfold post_tts.
  rewrite (tts_miss text env1 _ openaiRes) by assumption.
  cbn [fs sent dirs files app].
  rewrite (tts_hit text env2 _ (res_bytes openaiRes)); cbn [fs sent dirs files].
  - repeat split; reflexivity.
  - exact Htext.
  - destruct (exists_in disk cacheDir) eqn:Edir; unfold exists_in; cbn [dirs files].
    + rewrite lookup_insert_ne by apply cacheFile_neq_cacheDir. exact Edir.
    + rewrite (bool_decide_eq_true_2 (cacheDir ∈ {[cacheDir]} ∪ dirs disk))
        by (apply elem_of_union; left; now apply elem_of_singleton).
      reflexivity.
  - apply lookup_insert_eq.
Qed.

End TTSFacts.

(** ** The properties on the sample hosts

    One winter morning in New York: a fetch cycle at 7:05, requests at
    7:10, 10:00 and 10:30. *)

Section OnTheSampleHost.
Import ES Date Fetcher Scheduler News Summarize TTS Sample.
#[local] Existing Instance winterHost.

(** The cache after the fetch cycle of 7:05, in which one feed answered
    with one article. *)
Lemma cache_at_0705 :
  fetchRSSFeeds (fetch_at at_0705 (one_feed [dated_item])) initial_cache
  = {| articles := [{| headline := "Dated"; summary := "snippet";
                       date := "2025-01-15T12:00:00.000Z";
                       link := "https://digiday.com/dated";
                       source := "Digiday" |}];
       timestamp := at_0705;
       lastFetchDate := Some "2025-01-15T12:05:00.000Z" |}.
Proof. vm_compute. reflexivity. Qed.

(** C1 (the code departs from it): the fetch cycle of 7:05 leaves the ISO
    text of the instant in [lastFetchDate], not the date text of the day;
    at 7:10 of the same day [shouldFetchToday] compares it with
    "Wed Jan 15 2025", finds them different and answers [true], and
    [GET /api/news] runs a second fetch cycle. *)
Theorem catch_up_repeats_within_the_day :
  let cache1 :=
    fetchRSSFeeds (fetch_at at_0705 (one_feed [dated_item])) initial_cache in
  let again := fetch_at at_0710 (one_feed [dated_item]) in
  lastFetchDate cache1 = Some "2025-01-15T12:05:00.000Z"
  /\ toDateString (estTime at_0710) = "Wed Jan 15 2025"
  /\ getHours (estTime at_0710) = 7
  /\ shouldFetchToday at_0710 cache1 = true
  /\ snd (getNews at_0710 again (fetch_at at_0710 unreachable) cache1)
     = fetchRSSFeeds again cache1
  /\ timestamp (snd (getNews at_0710 again (fetch_at at_0710 unreachable) cache1))
     = at_0710.
Proof. vm_compute. repeat split; reflexivity. Qed.

(** C2 fails as stated for [fetchRSSFeeds]: the first feed gives an
    article of 14 January, the second one of 15 January, the others
    fail.  The loop gathers the two in the order of the feeds;
    [fetchRSSFeeds] leaves them in the cache the other way round, the
    later one first. *)
Lemma cached_list_is_not_in_feed_order :
  let env := fetch_at at_0705 (two_feeds [older_item] [dated_item]) in
  let older := {| headline := "Older"; summary := "from the day before";
                  date := "2025-01-14T09:30:00.000Z";
                  link := "https://www.adexchanger.com/older";
                  source := "" |} in
  let dated := {| headline := "Dated"; summary := "snippet";
                  date := "2025-01-15T12:00:00.000Z";
                  link := "https://digiday.com/dated";
                  source := "Digiday" |} in
  fetchLoop (parseURL env) FEEDS [] = Normal [older; dated]
  /\ articles (fetchRSSFeeds env initial_cache) = [dated; older]
  /\ articles (fetchRSSFeeds env initial_cache) <> [older; dated].
Proof.
  vm_compute. split; [reflexivity |]. split; [reflexivity | discriminate].
Qed.

Lemma fetch_cycle_skips_failing_feeds_witness :
  let env := fetch_at at_0705 (two_feeds [older_item] [dated_item; bare_item]) in
  let older := {| headline := "Older"; summary := "from the day before";
                  date := "2025-01-14T09:30:00.000Z";
                  link := "https://www.adexchanger.com/older";
                  source := "" |} in
  let dated := {| headline := "Dated"; summary := "snippet";
                  date := "2025-01-15T12:00:00.000Z";
                  link := "https://digiday.com/dated";
                  source := "Digiday" |} in
  let bare := {| headline := ""; summary := ""; date := "";
                 link := "https://digiday.com/bare"; source := "Digiday" |} in
  Exists (fails (parseURL env)) FEEDS
  /\ fetchLoop (parseURL env) FEEDS [] = Normal [older; dated; bare]
  /\ (length (omap (retrieved (parseURL env)) FEEDS) < length FEEDS)%nat
  /\ Permutation (articles (fetchRSSFeeds env initial_cache)) [older; dated; bare].
Proof.
  cbv zeta.
  assert (Hfail : Exists
    (fails (parseURL (fetch_at at_0705 (two_feeds [older_item] [dated_item; bare_item]))))
    FEEDS)
    by (do 2 apply Exists_cons_tl; apply Exists_cons_hd; reflexivity).
  split; [exact Hfail |].
  pose proof (fetch_cycle_skips_failing_feeds
    (fetch_at at_0705 (two_feeds [older_item] [dated_item; bare_item]))
    initial_cache FEEDS Hfail) as Hthm.
  cbv zeta in Hthm. destruct Hthm as (Hloop & Hlen & _ & Hperm).
  split; [rewrite Hloop; vm_compute; reflexivity |].
  split; [exact Hlen |].
  vm_compute in Hperm. vm_compute. exact Hperm.
Defined.

(** C3 fails as stated: an article without a date that was fetched before
    a dated one stays before it.  Every comparison gives [NaN], the sort
    leaves the two as they came. *)
Lemma undated_article_stays_first :
  let cached := articles (fetchRSSFeeds
    (fetch_at at_0705 (one_feed [undated_item; dated_item])) initial_cache) in
  ~ (forall (i j : nat) (a b : Article),
       cached !! i = Some a -> cached !! j = Some b ->
       date a = "" -> parseable b -> (j < i)%nat).
Proof.
  cbv zeta. intros Hclaim.
  specialize (Hclaim 0%nat 1%nat
    {| headline := "Undated"; summary := "summary"; date := "";
       link := "https://digiday.com/undated"; source := "Digiday" |}
    {| headline := "Dated"; summary := "snippet";
       date := "2025-01-15T12:00:00.000Z";
       link := "https://digiday.com/dated"; source := "Digiday" |}).
  assert (Hlt : (1 < 0)%nat).
  { apply Hclaim; try (vm_compute; reflexivity).
    unfold parseable. vm_compute. discriminate. }
  lia.
Qed.

Lemma cache_sorted_when_dates_parse_witness :
  let env := fetch_at at_0705 (one_feed [older_item; dated_item; dated_twin]) in
  let older := {| headline := "Older"; summary := "from the day before";
                  date := "2025-01-14T09:30:00.000Z";
                  link := "https://www.adexchanger.com/older";
                  source := "Digiday" |} in
  let dated := {| headline := "Dated"; summary := "snippet";
                  date := "2025-01-15T12:00:00.000Z";
                  link := "https://digiday.com/dated";
                  source := "Digiday" |} in
  let twin := {| headline := "Twin"; summary := "of the same instant";
                 date := "2025-01-15T12:00:00.000Z";
                 link := "https://digiday.com/twin";
                 source := "Digiday" |} in
  Forall parseable (fetched (parseURL env) FEEDS)
  /\ fetched (parseURL env) FEEDS = [older; dated; twin]
  /\ articles (fetchRSSFeeds env initial_cache) = [dated; twin; older]
  /\ StronglySorted date_desc (articles (fetchRSSFeeds env initial_cache))
  /\ Permutation (articles (fetchRSSFeeds env initial_cache))
                 (fetched (parseURL env) FEEDS).
Proof.
  cbv zeta.
  assert (Hp : Forall parseable
    (fetched (parseURL (fetch_at at_0705
       (one_feed [older_item; dated_item; dated_twin]))) FEEDS)).
  { vm_compute fetched. repeat constructor; vm_compute; discriminate. }
  split; [exact Hp |].
  split; [vm_compute; reflexivity |].
  split; [vm_compute; reflexivity |].
  apply (cache_sorted_when_dates_parse
           (fetch_at at_0705 (one_feed [older_item; dated_item; dated_twin]))
           initial_cache Hp).
Defined.

(** C4 fails as stated: after the successful cycle of 7:05 a forced cycle
    at 10:00 in which every feed fails empties the cache, and the
    [GET /api/news] of 10:30, with the feeds still down, answers with no
    articles. *)
Lemma empty_answer_after_failed_cycle :
  let cache1 :=
    fetchRSSFeeds (fetch_at at_0705 (one_feed [dated_item])) initial_cache in
  let down_1000 := fetch_at at_1000 unreachable in
  let down_1030 := fetch_at at_1030 unreachable in
  articles cache1 <> []
  /\ articles (fetchRSSFeeds down_1000 cache1) = []
  /\ exists r1 r2,
       fst (serve [FetchNow down_1000; GetNews at_1030 down_1030 down_1030] cache1)
       = [Some r1; Some r2]
       /\ served_articles r2 = Some [].
Proof.
  cbv zeta. split; [vm_compute; discriminate |].
  split; [vm_compute; reflexivity |].
  eexists _, _. split; vm_compute; reflexivity.
Qed.

(** A morning for C4: a request at 7:10, whose catch-up
    cycle gathers one article; a request at 10:00 with every feed down,
    which runs no cycle; a forced cycle and a cycle of the timer that
    gather one article each; a request at 10:30 with every feed down. *)
Lemma articles_kept_while_fetches_gather_witness :
  let cache1 :=
    fetchRSSFeeds (fetch_at at_0705 (one_feed [dated_item])) initial_cache in
  let down (t : Z) := fetch_at t unreachable in
  let events :=
    [GetNews at_0710 (fetch_at at_0710 (one_feed [undated_item])) (down at_0710);
     GetNews at_1000 (down at_1000) (down at_1000);
     FetchNow (fetch_at at_1000 (one_feed [dated_item]));
     TimerFires (fetch_at at_1000 (one_feed [older_item])) at_1000;
     GetNews at_1030 (down at_1030) (down at_1030)] in
  articles cache1 <> []
  /\ gathering events cache1
  /\ shouldFetchToday at_0710 cache1 = true
  /\ shouldFetchToday at_1000
       (fetchRSSFeeds (fetch_at at_0710 (one_feed [undated_item])) cache1) = false
  /\ articles (snd (serve events cache1)) <> []
  /\ Forall2 (fun e answer => is_GetNews e -> carries_articles answer)
             events (fst (serve events cache1))
  /\ forall env, Forall (fails (parseURL env)) FEEDS ->
       articles (fetchRSSFeeds env (snd (serve events cache1))) = [].
Proof.
  cbv zeta.
  assert (Hne : articles (fetchRSSFeeds (fetch_at at_0705 (one_feed [dated_item]))
                            initial_cache) <> [])
    by (vm_compute; discriminate).
  assert (Hkeep : gathering
    [GetNews at_0710 (fetch_at at_0710 (one_feed [undated_item]))
       (fetch_at at_0710 unreachable);
     GetNews at_1000 (fetch_at at_1000 unreachable) (fetch_at at_1000 unreachable);
     FetchNow (fetch_at at_1000 (one_feed [dated_item]));
     TimerFires (fetch_at at_1000 (one_feed [older_item])) at_1000;
     GetNews at_1030 (fetch_at at_1030 unreachable) (fetch_at at_1030 unreachable)]
    (fetchRSSFeeds (fetch_at at_0705 (one_feed [dated_item])) initial_cache)).
  { cbn [gathering].
    repeat match goal with |- _ /\ _ => split end;
      try discriminate; try exact I;
      vm_compute cycles_of; repeat constructor;
      unfold productive; vm_compute; discriminate. }
  split; [exact Hne |]. split; [exact Hkeep |].
  split; [vm_compute; reflexivity |]. split; [vm_compute; reflexivity |].
  apply (articles_kept_while_fetches_gather _ _ Hne Hkeep).
Defined.

Lemma all_unreachable : Forall (fails unreachable) FEEDS.
Proof. apply Forall_forall. intros url _. reflexivity. Defined.

(** C6 fails as stated: after a clear, the [GET /api/news] of 10:30 with
    no feed reachable answers with no articles, and with [lastFetch] the
    ISO text of 10:30, not [null]. *)
Lemma lastFetch_after_clear_is_not_null :
  let cache1 :=
    fetchRSSFeeds (fetch_at at_0705 (one_feed [dated_item])) initial_cache in
  let down := fetch_at at_1030 unreachable in
  let r := fst (getNews at_1030 down down (snd (clearCache cache1))) in
  served_articles r = Some []
  /\ served_lastFetch r = Some (JString "2025-01-15T15:30:00.000Z")
  /\ served_lastFetch r <> Some JNull.
Proof.
  vm_compute. split; [reflexivity |]. split; [reflexivity | discriminate].
Qed.

Lemma clear_then_news_when_no_feed_answers_witness :
  let cache1 :=
    fetchRSSFeeds (fetch_at at_0705 (one_feed [dated_item])) initial_cache in
  let down := fetch_at at_1030 unreachable in
  Forall (fails (parseURL down)) FEEDS
  /\ snd (clearCache cache1) = initial_cache
  /\ getNews at_1030 down down (snd (clearCache cache1))
     = (res_json 200
          (JObject [("articles", JArray []);
                    ("lastFetch", JString (toISOString (at_new_Date down)));
                    ("cacheStatus", JString "initial fetch")]),
        {| articles := [];
           timestamp := at_Date_now down;
           lastFetchDate := Some (toISOString (at_new_Date down)) |}).
Proof.
  cbv zeta. split; [exact all_unreachable |].
  apply (clear_then_news_when_no_feed_answers at_1030
           (fetch_at at_1030 unreachable) (fetch_at at_1030 unreachable) _
           all_unreachable all_unreachable).
Defined.

Lemma fetchNow_answer_witness :
  let cache1 :=
    fetchRSSFeeds (fetch_at at_0705 (one_feed [dated_item])) initial_cache in
  let down := fetch_at at_1000 unreachable in
  Forall (fails (parseURL down)) FEEDS
  /\ articles (snd (fetchNow down cache1)) = []
  /\ body (fst (fetchNow down cache1))
     = JsonBody (JObject
         [("message", JString "Manual fetch completed");
          ("articlesCount", JNumber 0);
          ("lastFetch", JString (toISOString (at_new_Date down)))]).
Proof.
  cbv zeta. split; [exact all_unreachable |].
  pose proof (fetchNow_answer (fetch_at at_1000 unreachable)
    (fetchRSSFeeds (fetch_at at_0705 (one_feed [dated_item])) initial_cache)) as Hthm.
  destruct (fetchNow _ _) as [r cache'].
  exact (proj2 (proj2 (proj2 Hthm)) all_unreachable).
Defined.


Lemma winterHost_fixed_zone : fixed_zone.
Proof. intros t isUTC. reflexivity. Defined.


(** C5 (the code departs from it): the upstream API answers 401 with a
    JSON error body.  The handler does not look at the status; the body
    has no [choices], the extracted content is empty, and the route
    answers 200 with an empty summary. *)
Theorem summarize_answers_200_on_api_error :
  res_ok unauthorized = false
  /\ summarize (Some "hello") (api_answers unauthorized)
     = (res_json 200 (JObject [("summary", JString "")]), [chat_request "hello"]).
Proof. split; reflexivity. Qed.

(** C8 fails as stated: the content is trimmed before anything else.  A
    content that does not start with a hyphen is not returned unchanged
    when white space stands at its ends; and a content that starts with
    white space before its first hyphen does not start with a hyphen,
    yet is made into a list. *)
Lemma summary_is_made_of_the_trimmed_content :
  let answer (content : string) :=
    fst (summarize (Some "An article") (api_answers (chat_ok content))) in
  let indented := ("  - a" ++ String JSString.LF "- b")%string in
  answer " hello " = res_json 200 (JObject [("summary", JString "hello")])
  /\ answer " hello " <> res_json 200 (JObject [("summary", JString " hello ")])
  /\ JSString.startsWith indented "-" = false
  /\ answer indented
     = res_json 200 (JObject [("summary", JString
         ("<ul style=" ++ dquote ++ "padding-left:1.5em;list-style:disc;" ++ dquote
            ++ "><li>a</li><li>b</li></ul>"))])
  /\ answer indented <> res_json 200 (JObject [("summary", JString indented)]).
Proof.
  vm_compute. repeat split; try reflexivity; discriminate.
Qed.

Lemma chat_ok_first_content (content : string) :
  exists data,
    res_json_body (chat_ok content) = Normal data /\ first_content data content.
Proof.
  eexists. split; [reflexivity |].
  eexists _, _, _, _. repeat split; reflexivity.
Defined.

Lemma summarize_formats_trimmed_content_witness :
  let answer (content : string) :=
    fst (summarize (Some "An article") (api_answers (chat_ok content))) in
  "An article"%string <> ""%string
  /\ answer ("- a" ++ String JSString.LF "- b")%string
     = res_json 200 (JObject [("summary", JString
         ("<ul style=" ++ dquote ++ "padding-left:1.5em;list-style:disc;" ++ dquote
            ++ "><li>a</li><li>b</li></ul>"))])
  /\ answer ("  -  a " ++ String JSString.LF (String JSString.LF " - b  "))%string
     = res_json 200 (JObject [("summary", JString
         ("<ul style=" ++ dquote ++ "padding-left:1.5em;list-style:disc;" ++ dquote
            ++ "><li>a</li><li>b</li></ul>"))])
  /\ answer "hello - there" = res_json 200 (JObject [("summary", JString "hello - there")]).
Proof.
  cbv zeta.
  assert (Hne : "An article"%string <> ""%string) by discriminate.
  split; [exact Hne |].
  assert (Hat : forall content,
    fst (summarize (Some "An article") (api_answers (chat_ok content)))
    = res_json 200 (JObject [("summary", JString
        match JSString.trim content with
        | String "-" _ =>
            (ul_open
               ++ JSString.join_empty
                    (map (fun item => "<li>" ++ item ++ "</li>")
                         (bullet_items (JSString.trim content)))
               ++ "</ul>")%string
        | trimmed => trimmed
        end)])).
  { intros content.
    destruct (chat_ok_first_content content) as (data & Hbody & Hcontent).
    exact (proj1 (summarize_formats_trimmed_content "An article"
             (api_answers (chat_ok content)) (chat_ok content) data content
             Hne eq_refl Hbody Hcontent)). }
  split; [rewrite Hat; vm_compute; reflexivity |].
  split; rewrite Hat; vm_compute; reflexivity.
Defined.

(** C7 fails as stated: the upstream call of the first request is
    answered 429.  The first request writes no file, and the second
    request, finding none, calls the upstream API again. *)
Lemma tts_failed_call_leaves_no_file :
  let '(r1, disk1, sent1) :=
    post_tts (Some (JString "hello")) (tts_env rate_limited) empty_disk in
  let '(r2, disk2, sent2) :=
    post_tts (Some (JString "hello")) (tts_env speech_ok) disk1 in
  status <$> r1 = Some 429
  /\ files disk1 = ∅
  /\ sent2 = [speech_request "hello"]
  /\ sent2 <> [].
Proof.
  vm_compute. split; [reflexivity |]. split; [reflexivity |].
  split; [reflexivity | discriminate].
Qed.

Lemma tts_second_request_from_cache_witness :
  let '(r1, disk1, sent1) :=
    post_tts (Some (JString "hello")) (tts_env speech_ok) empty_disk in
  let '(r2, disk2, sent2) :=
    post_tts (Some (JString "hello")) (tts_env speech_ok) disk1 in
  exists_in empty_disk (cacheFile "hello") = false
  /\ sent1 = [speech_request "hello"]
  /\ files disk1
     = <["/app/tts_cache/2cf24dba5fb0a30e26e83b2ac5b9e29e1b161e5c1fa7425e73043362938b9824.mp3"
         := hello_audio]> ∅
  /\ sent2 = []
  /\ r2 = Some {| status := 200;
                  headers := [("Content-Type", HText "audio/mpeg");
                              ("Content-Length", HNumber 3);
                              ("Cache-Control", HText "public, max-age=3600")];
                  body := BinaryBody hello_audio |}.
Proof.
  pose proof (tts_second_request_from_cache "hello"
    (tts_env speech_ok) (tts_env speech_ok) empty_disk speech_ok) as Hthm.
  cbv zeta in Hthm.
  destruct (post_tts (Some (JString "hello")) (tts_env speech_ok) empty_disk)
    as [[r1 disk1] sent1].
  destruct (post_tts (Some (JString "hello")) (tts_env speech_ok) disk1)
    as [[r2 disk2] sent2].
  destruct Hthm as (Hs1 & Hf1 & Hr1 & Hs2 & Hd2 & Hr2);
    [discriminate | reflexivity | right; reflexivity | reflexivity
    | reflexivity | reflexivity |].
  split; [reflexivity |]. split; [exact Hs1 |]. split; [exact Hf1 |].
  split; [exact Hs2 | exact Hr2].
Defined.

End OnTheSampleHost.

(* ================================================================== *)
(** * Part III: further properties of the program                      *)
(* ================================================================== *)

(** ** More on the fetch cycle *)

Section MoreFetcherFacts.
Import Date Fetcher Server.
Context `{Host}.

(** X1: a fetch cycle always reaches its assignment: whatever the feeds
    do, the outer [catch] is not entered, nothing of the cache found
    survives, and time stamp and date are those of this cycle. *)
Theorem fetch_cycle_forgets_the_old_cache (env : FetchEnv) (c1 c2 : Cache) :
  fetchRSSFeeds env c1 = fetchRSSFeeds env c2
  /\ timestamp (fetchRSSFeeds env c1) = at_Date_now env
  /\ lastFetchDate (fetchRSSFeeds env c1) = Some (toISOString (at_new_Date env)).
Proof. rewrite !fetchRSSFeeds_eq. repeat split. Qed.

Lemma length_concat_sum {A} (ls : list (list A)) :
  length (concat ls) = list_sum (map (@length A) ls).
Proof.
  induction ls as [| l ls IH]; cbn; [reflexivity |].
  now rewrite length_app, IH.
Qed.

(** X2: the cached list holds exactly the fetched articles, each as
    often as it was fetched, whether or not their dates parse; their
    number is the sum of the numbers of items of the feeds that
    answered. *)
Theorem cached_articles_are_the_fetched_ones (env : FetchEnv) (cache : Cache) :
  Permutation (articles (fetchRSSFeeds env cache)) (fetched (parseURL env) FEEDS)
  /\ length (articles (fetchRSSFeeds env cache))
     = list_sum (map (fun feed => length (default [] (feed_items feed)))
                     (omap (retrieved (parseURL env)) FEEDS)).
Proof.
  rewrite fetchRSSFeeds_eq. cbn [articles]. split; [apply Array_sort_permutes |].
  rewrite Array_sort_length. unfold fetched.
  rewrite length_concat_sum, map_map. f_equal.
  apply map_ext. intros feed. unfold itemsOf. apply length_map.
Qed.

Lemma SortCompare_positive (x y : Article) :
  0 < JSArray.SortCompare byDate x y ->
  exists tx ty,
    Date_parse (date x) = Some tx /\ Date_parse (date y) = Some ty /\ tx < ty.
Proof.
  unfold JSArray.SortCompare, byDate.
  destruct (Date_parse (date y)) as [ty |], (Date_parse (date x)) as [tx |];
    try lia.
  intros Hlt. exists tx, ty. repeat split. lia.
Qed.

Lemma insert_dated (k : option Z) (x : Article) (l : list Article) :
  dated k (JSArray.insert byDate x l) = dated k (x :: l).
Proof.
  induction l as [| y l IH]; [reflexivity |].
  cbn [JSArray.insert].
  destruct (Z.ltb_spec 0 (JSArray.SortCompare byDate x y)) as [Hlt | Hge];
    [| reflexivity].
  apply SortCompare_positive in Hlt as (tx & ty & Ex & Ey & Hlt).
  unfold dated in *. cbn [List.filter] in *. rewrite IH, Ey, Ex.
  destruct k as [t |]; [| reflexivity].
  destruct (Z.eqb_spec ty t), (Z.eqb_spec tx t); try reflexivity. lia.
Qed.

Lemma stable_sort_dated (k : option Z) (l : list Article) :
  dated k (JSArray.stable_sort byDate l) = dated k l.
Proof.
  induction l as [| x l IH]; [reflexivity |].
  cbn [JSArray.stable_sort]. rewrite insert_dated.
  unfold dated in *. cbn [List.filter]. now rewrite IH.
Qed.

(** X3: when every fetched date parses, the comparator of the fetch
    cycle is consistent, so the sort is stable: the articles of one and
    the same date stand in the cache in the order in which they were
    fetched. *)
Theorem equal_dates_keep_fetch_order (env : FetchEnv) (cache : Cache) (t : Z) :
  Forall parseable (fetched (parseURL env) FEEDS) ->
  dated (Some t) (articles (fetchRSSFeeds env cache))
  = dated (Some t) (fetched (parseURL env) FEEDS).
Proof.
  intros Hp. rewrite fetchRSSFeeds_eq. cbn [articles].
  rewrite Array_sort_consistent by now apply byDate_consistent.
  apply stable_sort_dated.
Qed.

Lemma insert_undated (x : Article) (l : list Article) :
  Date_parse (date x) = None -> JSArray.insert byDate x l = x :: l.
Proof.
  intros Ex. destruct l as [| y l]; [reflexivity |].
  cbn [JSArray.insert]. unfold JSArray.SortCompare, byDate. rewrite Ex.
  now destruct (Date_parse (date y)).
Qed.

Lemma SortCompare_undated (x y : Article) :
  Date_parse (date x) = None -> JSArray.SortCompare byDate x y = 0.
Proof.
  intros Ex. unfold JSArray.SortCompare, byDate. rewrite Ex.
  now destruct (Date_parse (date y)).
Qed.

Lemma stable_sort_undated (l : list Article) :
  Forall (fun a => Date_parse (date a) = None) l ->
  JSArray.stable_sort byDate l = l.
Proof.
  induction 1 as [| x l Hx _ IH]; [reflexivity |].
  cbn [JSArray.stable_sort]. rewrite IH. now apply insert_undated.
Qed.

(** X4: when no fetched article has a date that parses, every comparison
    is a tie and the cache holds the articles in the order of the
    fetch. *)
Theorem undated_articles_keep_fetch_order (env : FetchEnv) (cache : Cache) :
  Forall (fun a => Date_parse (date a) = None) (fetched (parseURL env) FEEDS) ->
  articles (fetchRSSFeeds env cache) = fetched (parseURL env) FEEDS.
Proof.
  intros Hnone. rewrite fetchRSSFeeds_eq. cbn [articles].
  rewrite Array_sort_consistent.
  - now apply stable_sort_undated.
  - apply ties_consistent. intros a b Ha _. apply SortCompare_undated.
    rewrite Forall_forall in Hnone. now apply Hnone.
Qed.

(** X5: every cached article was made from an item of a feed that one of
    the addresses of [FEEDS] gave in this cycle; a feed that failed, or an
    address outside the list, leaves nothing in the cache. *)
Theorem cached_articles_come_from_the_feeds (env : FetchEnv) (cache : Cache)
    (a : Article) :
  In a (articles (fetchRSSFeeds env cache)) ->
  exists url feed item,
    In url FEEDS /\ parseURL env url = Normal feed
    /\ In item (default [] (feed_items feed))
    /\ a = toArticle feed item.
Proof.
  rewrite fetchRSSFeeds_eq. cbn [articles]. intros Ha.
  apply (Permutation_in _ (Array_sort_permutes _ byDate _)) in Ha.
  unfold fetched in Ha. apply in_concat in Ha as (items & Hitems & Ha).
  apply in_map_iff in Hitems as (feed & <- & Hfeed).
  apply list_elem_of_In, list_elem_of_omap in Hfeed as (url & Hurl & Hret).
  apply list_elem_of_In in Hurl.
  unfold itemsOf in Ha. apply in_map_iff in Ha as (item & <- & Hitem).
  exists url, feed, item. repeat split; trivial.
  unfold retrieved in Hret. destruct (parseURL env url); congruence.
Qed.

End MoreFetcherFacts.

(** ** More on the scheduler *)

Section MoreSchedulerFacts.
Import ES DateText Date Fetcher Scheduler News Server.
Context `{Host}.

Lemma Day_of_whole_seconds (w : Z) :
  Day (msPerSecond * (w / msPerSecond)) = Day w.
Proof.
  unfold Day, msPerSecond, msPerDay. Z.div_mod_to_equations. lia.
Qed.

(** The text of a date depends on the day alone. *)
Lemma DateString_same_day (t t' : Z) : Day t = Day t' -> DateString t = DateString t'.
Proof.
  intros E.
  unfold DateString, WeekDay, DateFromTime, MonthFromTime, DayWithinYear,
    InLeapYear, YearFromTime.
  now rewrite E.
Qed.

Lemma getHours_estTime (now : Z) :
  on_the_clock (msPerSecond * ((now + offsetNewYork now) / msPerSecond)) ->
  getHours (estTime now) = HourFromTime (now + offsetNewYork now).
Proof.
  intros Hc. unfold getHours. rewrite LocalTime_estTime by exact Hc.
  unfold HourFromTime, msPerHour, msPerSecond. Z.div_mod_to_equations. lia.
Qed.

(** X6: what the program reads off [estTime] is the wall clock of New
    York: its hour, its minute, and the text of its calendar day,
    whatever the server's own zone, provided the server's clock shows
    that reading of the wall clock of New York at all (it does on every
    server whose zone keeps one offset). *)
Theorem estTime_reads_the_new_york_clock (now : Z) :
  on_the_clock (msPerSecond * ((now + offsetNewYork now) / msPerSecond)) ->
  getHours (estTime now) = HourFromTime (now + offsetNewYork now)
  /\ getMinutes (estTime now) = MinFromTime (now + offsetNewYork now)
  /\ toDateString (estTime now) = DateString (now + offsetNewYork now).
Proof.
  intros Hc. split; [now apply getHours_estTime |].
  unfold getMinutes, toDateString. rewrite LocalTime_estTime by exact Hc.
  set (w := now + offsetNewYork now). split.
  - unfold MinFromTime, msPerMinute, msPerSecond. Z.div_mod_to_equations. lia.
  - apply DateString_same_day, Day_of_whole_seconds.
Qed.

(** X7: on a server whose own zone keeps one offset, the delay handed to
    [setTimeout] is a whole number of seconds, and at least one second:
    the timer is never armed with 0. *)
Theorem timer_delay_is_whole_seconds (now : Z) :
  fixed_zone ->
  timeUntilNextFetch now mod msPerSecond = 0
  /\ msPerSecond <= timeUntilNextFetch now.
Proof.
  intros Hz.
  rewrite (timeUntilNextFetch_eq Hz),
    (LocalTime_estTime now (fixed_zone_on_the_clock _ Hz)).
  generalize ((now + offsetNewYork now) / msPerSecond) as q. intros q.
  destruct (Z.leb_spec 7 (HourFromTime (msPerSecond * q))) as [Hh | Hh];
    revert Hh;
    unfold MakeDate, MakeTime, Day, HourFromTime, msPerHour, msPerMinute,
      msPerSecond, msPerDay;
    intros Hh; Z.div_mod_to_equations; lia.
Qed.

(** X8: on a server whose own zone keeps one offset, when the offset of
    New York is the same at the firing of the timer as at its arming, a
    timer that fires after exactly its delay finds the clock of New York
    at 7:00:00, and [scheduleNextFetch], called again from the callback,
    arms exactly 24 hours. *)
Theorem timer_fires_at_seven (now : Z) :
  fixed_zone ->
  offsetNewYork (now + timeUntilNextFetch now) = offsetNewYork now ->
  getHours (estTime (now + timeUntilNextFetch now)) = 7
  /\ getMinutes (estTime (now + timeUntilNextFetch now)) = 0
  /\ TimeWithinDay (LocalTime (estTime (now + timeUntilNextFetch now)))
     = MakeTime 7 0 0 0
  /\ timeUntilNextFetch (now + timeUntilNextFetch now) = msPerDay.
Proof.
  intros Hz Hoff.
  pose proof (fun t => LocalTime_estTime t (fixed_zone_on_the_clock _ Hz))
    as LocalTime_estTime'.
  pose proof (timeUntilNextFetch_eq Hz) as timeUntilNextFetch_eq'.
  assert (Hfire : LocalTime (estTime (now + timeUntilNextFetch now))
    = MakeDate (Day (LocalTime (estTime now))
                + (if 7 <=? HourFromTime (LocalTime (estTime now)) then 1 else 0))
               (MakeTime 7 0 0 0)).
  { rewrite (LocalTime_estTime' (now + timeUntilNextFetch now)), Hoff.
    rewrite timeUntilNextFetch_eq', LocalTime_estTime'.
    set (w := now + offsetNewYork now).
    replace (now + _ + offsetNewYork now)
      with (w + (MakeDate (Day (msPerSecond * (w / msPerSecond))
                   + (if 7 <=? HourFromTime (msPerSecond * (w / msPerSecond))
                      then 1 else 0)) (MakeTime 7 0 0 0)
                 - msPerSecond * (w / msPerSecond))) by (unfold w; lia).
    generalize (Day (msPerSecond * (w / msPerSecond))
                + (if 7 <=? HourFromTime (msPerSecond * (w / msPerSecond))
                   then 1 else 0)) as d.
    intros d.
    unfold MakeDate, MakeTime, msPerHour, msPerMinute, msPerSecond, msPerDay.
    Z.div_mod_to_equations. lia. }
  rewrite (timeUntilNextFetch_eq' (now + timeUntilNextFetch now)).
  unfold getHours, getMinutes. rewrite Hfire.
  generalize (Day (LocalTime (estTime now))
              + (if 7 <=? HourFromTime (LocalTime (estTime now)) then 1 else 0)) as d.
  intros d.
  assert (Hh : HourFromTime (MakeDate d (MakeTime 7 0 0 0)) = 7).
  { unfold HourFromTime, MakeDate, MakeTime, msPerHour, msPerMinute,
      msPerSecond, msPerDay. Z.div_mod_to_equations. lia. }
  rewrite Hh. cbn [Z.leb Z.compare Pos.compare Pos.compare_cont].
  repeat split.
  - unfold MinFromTime, MakeDate, MakeTime, msPerHour, msPerMinute,
      msPerSecond, msPerDay. Z.div_mod_to_equations. lia.
  - unfold TimeWithinDay, MakeDate, MakeTime, msPerHour, msPerMinute,
      msPerSecond, msPerDay. Z.div_mod_to_equations. lia.
  - unfold Day, MakeDate, MakeTime, msPerHour, msPerMinute,
      msPerSecond, msPerDay. Z.div_mod_to_equations. lia.
Qed.

(** Every cache the server can hold is the initial one or the whole
    outcome of one fetch cycle. *)
Lemma Reachable_inv (cache : Cache) :
  Reachable cache ->
  cache = initial_cache \/ exists env, cache = fetchRSSFeeds env initial_cache.
Proof.
  assert (Hfetch : forall env c,
    fetchRSSFeeds env c = initial_cache
    \/ exists env', fetchRSSFeeds env c = fetchRSSFeeds env' initial_cache).
  { intros env c. right. exists env. now rewrite !fetchRSSFeeds_eq. }
  induction 1 as [| env now | e cache _ IH].
  - now left.
  - unfold onListen. cbn [initial_cache articles length Nat.eqb snd]. apply Hfetch.
  - destruct e as [now catchUp initial | | env | env now]; unfold step.
    + unfold getNews.
      destruct (shouldFetchToday now cache);
        repeat match goal with
               | |- context [if ?b then _ else _] => destruct b
               end; cbn [snd]; auto.
    + now left.
    + unfold fetchNow. cbn [snd]. apply Hfetch.
    + unfold timerFires. cbn [snd]. apply Hfetch.
Qed.

(** X10: in every state the server can reach, [shouldFetchToday] answers
    by the hour alone: it is [true] throughout the 7 o'clock hour of New
    York and [false] otherwise, whether or not a fetch cycle has run that
    day (the server's clock showing the reading of the wall clock of New
    York). *)
Theorem shouldFetchToday_is_the_hour_alone (now : Z) (cache : Cache) :
  Reachable cache ->
  on_the_clock (msPerSecond * ((now + offsetNewYork now) / msPerSecond)) ->
  shouldFetchToday now cache = (HourFromTime (now + offsetNewYork now) =? 7).
Proof.
  intros Hr Hc.
  rewrite <- (getHours_estTime now Hc).
  destruct (Reachable_inv cache Hr) as [-> | [env ->]].
  - unfold shouldFetchToday. cbn [lastFetchDate initial_cache strict_neq].
    apply andb_true_r.
  - apply shouldFetchToday_after_fetch.
Qed.

Lemma Reachable_lastFetchDate (cache : Cache) :
  Reachable cache -> articles cache <> [] -> lastFetchDate cache <> None.
Proof.
  intros Hr Hne. destruct (Reachable_inv cache Hr) as [-> | [env ->]].
  - now cbn [initial_cache articles] in Hne.
  - rewrite fetchRSSFeeds_eq. cbn [lastFetchDate]. discriminate.
Qed.

Lemma served_lastFetch_news (cache : Cache) (cacheStatus : string) :
  served_lastFetch (res_json 200 (news_body cache cacheStatus))
  = Some (lastFetch_json (lastFetchDate cache)).
Proof. reflexivity. Qed.

Lemma lastFetch_json_not_null (d : option string) :
  d <> None -> Some (lastFetch_json d) <> Some JNull.
Proof. destruct d; [discriminate | congruence]. Qed.

Lemma lastFetchDate_fetched (env : FetchEnv) (cache : Cache) :
  lastFetchDate (fetchRSSFeeds env cache) <> None.
Proof. rewrite fetchRSSFeeds_eq. cbn [lastFetchDate]. discriminate. Qed.

Lemma getNews_answer (now : Z) (catchUp initial : FetchEnv) (cache : Cache) :
  exists cacheStatus,
    fst (getNews now catchUp initial cache)
    = res_json 200 (news_body (snd (getNews now catchUp initial cache)) cacheStatus).
Proof.
  unfold getNews.
  destruct (shouldFetchToday now cache);
    match goal with |- context [if ?b then _ else _] => destruct b end;
    eexists; reflexivity.
Qed.

Lemma getNews_lastFetchDate (now : Z) (catchUp initial : FetchEnv) (cache : Cache) :
  Reachable cache ->
  lastFetchDate (snd (getNews now catchUp initial cache)) <> None.
Proof.
  intros Hr. unfold getNews.
  destruct (shouldFetchToday now cache).
  - destruct (0 <? length _)%nat; cbn [snd]; apply lastFetchDate_fetched.
  - destruct (0 <? length (articles cache))%nat eqn:Elen; cbn [snd].
    + apply (Reachable_lastFetchDate cache Hr).
      destruct (articles cache); [discriminate Elen | discriminate].
    + apply lastFetchDate_fetched.
Qed.

Lemma step_GetNews (now : Z) (catchUp initial : FetchEnv) (cache : Cache)
    (r : HttpResponse) :
  fst (step (GetNews now catchUp initial) cache) = Some r ->
  r = fst (getNews now catchUp initial cache).
Proof.
  unfold step. destruct (getNews now catchUp initial cache) as [r' c'].
  cbn [fst]. congruence.
Qed.

(** X11: no answer of a running server carries [lastFetch: null].  From
    any state the server can reach, whatever the event and whatever the
    feeds do, the [lastFetch] of the answer (if it has one) is a
    string. *)
Theorem lastFetch_is_never_null (e : Event) (cache : Cache) (r : HttpResponse) :
  Reachable cache ->
  fst (step e cache) = Some r ->
  served_lastFetch r <> Some JNull.
Proof.
  intros Hr Hstep.
  destruct e as [now catchUp initial | | env | env now].
  - apply step_GetNews in Hstep.
    destruct (getNews_answer now catchUp initial cache) as [st Hst].
    rewrite Hstep, Hst, served_lastFetch_news.
    apply lastFetch_json_not_null. apply getNews_lastFetchDate. exact Hr.
  - assert (Hr' : r = res_json 200 (JObject [("message", JString "Cache cleared")]))
      by (unfold step, clearCache in Hstep; cbn [fst] in Hstep; congruence).
    rewrite Hr'. discriminate.
  - assert (Hr' : served_lastFetch r
        = Some (lastFetch_json (lastFetchDate (fetchRSSFeeds env cache)))).
    { unfold step, fetchNow in Hstep. cbn [fst] in Hstep.
      injection Hstep as <-. reflexivity. }
    rewrite Hr'. apply lastFetch_json_not_null, lastFetchDate_fetched.
  - unfold step in Hstep. discriminate.
Qed.

End MoreSchedulerFacts.

(** ** More on [GET /api/news] *)

Section MoreNewsFacts.
Import ES Date Fetcher Scheduler News Server.
Context `{Host}.

(** X12: outside the 7 o'clock hour of New York, with articles in the
    cache, [GET /api/news] reads no feed: whatever the feeds would do,
    it answers with the cached articles under "serving cached data" and
    leaves the cache as it is (the server's clock showing the reading of
    the wall clock of New York). *)
Theorem news_served_from_cache_without_fetching (now : Z) (cache : Cache)
    (catchUp initial : FetchEnv) :
  on_the_clock (msPerSecond * ((now + offsetNewYork now) / msPerSecond)) ->
  HourFromTime (now + offsetNewYork now) <> 7 ->
  articles cache <> [] ->
  getNews now catchUp initial cache
  = (res_json 200 (news_body cache "serving cached data"), cache).
Proof.
  intros Hc Hhour Hne.
  assert (Hno : shouldFetchToday now cache = false).
  { unfold shouldFetchToday. rewrite (getHours_estTime now Hc).
    destruct (Z.eqb_spec (HourFromTime (now + offsetNewYork now)) 7);
      [contradiction | reflexivity]. }
  now apply getNews_from_cache.
Qed.

Lemma Some_eq {A} (a b : A) : Some a = Some b -> a = b.
Proof. congruence. Qed.

(** X13: [GET /api/news] does not answer with an empty list out of the
    cache: an answer without articles means that a fetch cycle ran in
    this very request, under "initial fetch", and gathered nothing. *)
Theorem empty_news_means_feeds_were_tried (now : Z) (catchUp initial : FetchEnv)
    (cache : Cache) :
  served_articles (fst (getNews now catchUp initial cache)) = Some [] ->
  fetched (parseURL initial) FEEDS = []
  /\ body (fst (getNews now catchUp initial cache))
     = JsonBody (JObject
         [("articles", JArray []);
          ("lastFetch", JString (toISOString (at_new_Date initial)));
          ("cacheStatus", JString "initial fetch")])
  /\ lastFetchDate (snd (getNews now catchUp initial cache))
     = Some (toISOString (at_new_Date initial)).
Proof.
  unfold getNews.
  set (c := if shouldFetchToday now cache then fetchRSSFeeds catchUp cache else cache).
  destruct (0 <? length (articles c))%nat eqn:Elen; cbn [fst snd].
  - rewrite served_articles_news. intros E%Some_eq. apply map_eq_nil in E.
    rewrite E in Elen. discriminate Elen.
  - rewrite served_articles_news, fetchRSSFeeds_eq. cbn [articles lastFetchDate].
    generalize (fetched (parseURL initial) FEEDS) as l. intros l E%Some_eq.
    apply map_eq_nil in E.
    pose proof E as E'. apply Array_sort_nil_iff in E'.
    split; [exact E' |]. split; [| reflexivity].
    unfold res_json, news_body. cbn [body articles lastFetchDate lastFetch_json].
    rewrite E. reflexivity.
Qed.

End MoreNewsFacts.

(** ** More on [POST /api/summarize] *)

Section MoreSummarizeFacts.
Import JSString JSValue Summarize Lines.


(** X15: whatever fails inside the [try], the call, the parsing of the
    body or the reading of the first choice, the answer is 500 with
    "Failed to summarize" and the message of the error as details. *)
Theorem summarize_failure_is_500 (text : string)
    (api : UpstreamRequest -> Completion FetchResponse) (e : string) :
  text <> "" ->
  (api (chat_request text) = Throw e
   \/ exists r, api (chat_request text) = Normal r
        /\ (res_json_body r = Throw e
            \/ exists data, res_json_body r = Normal data
                 /\ extract_summaryRaw data = Throw e)) ->
  fst (summarize (Some text) api)
  = res_json 500 (JObject [("error", JString "Failed to summarize");
                           ("details", JString e)]).
Proof.
  intros Htext Hfail. unfold summarize. change (default "" (Some text)) with text.
  rewrite (truthy_nonempty _ Htext). cbn [negb fst].
  destruct Hfail as [Hapi | (r & Hapi & [Hbody | (data & Hbody & Hraw)])];
    rewrite Hapi; cbn; [reflexivity | |]; rewrite Hbody; cbn; [reflexivity |].
  rewrite Hraw. reflexivity.
Qed.

(** X16: the handler never reads the status of the upstream answer: two
    answers with the same body are treated alike, be the status 200 or
    an error. *)
Theorem summarize_ignores_upstream_status (text : option string)
    (r r' : FetchResponse) :
  res_json_body r = res_json_body r' ->
  summarize text (fun _ => Normal r) = summarize text (fun _ => Normal r').
Proof.
  intros Hbody. unfold summarize.
  destruct (negb (truthy (default "" text))); [reflexivity |].
  cbn. rewrite Hbody. reflexivity.
Qed.

Lemma split_LF_nonempty (s : string) : split_LF s <> [].
Proof.
  induction s as [| c s IH]; cbn [split_LF]; [discriminate |].
  destruct (Ascii.eqb c LF).
  - destruct s as [| c' s']; [discriminate |].
    destruct (Ascii.eqb c' LF); [exact IH | discriminate].
  - destruct (split_LF s); discriminate.
Qed.

Lemma split_LF_no_LF (s : string) : Forall (fun piece => no_LF piece = true) (split_LF s).
Proof.
  induction s as [| c s IH]; cbn [split_LF].
  - repeat constructor.
  - destruct (Ascii.eqb c LF) eqn:Ec.
    + destruct s as [| c' s']; [repeat constructor |].
      destruct (Ascii.eqb c' LF); [exact IH | now constructor].
    + destruct (split_LF s) as [| piece rest].
      * repeat constructor. cbn. now rewrite Ec.
      * inversion IH as [| ? ? Hpiece Hrest]; subst.
        constructor; [| exact Hrest]. cbn. now rewrite Ec.
Qed.

Lemma split_LF_join_empty (s : string) : join_empty (split_LF s) = remove_LF s.
Proof.
  induction s as [| c s IH]; cbn [split_LF remove_LF]; [reflexivity |].
  destruct (Ascii.eqb c LF) eqn:Ec.
  - destruct s as [| c' s']; [reflexivity |].
    destruct (Ascii.eqb c' LF); exact IH.
  - rewrite <- IH. pose proof (split_LF_nonempty s) as Hne.
    destruct (split_LF s) as [| piece rest]; [contradiction | reflexivity].
Qed.

(** X17: [split(/\n+/)] as the handler uses it loses nothing but the
    line feeds: there is at least one piece, no piece holds a line feed,
    and the pieces put together are the text without its line feeds. *)
Theorem split_loses_only_line_feeds (s : string) :
  split_LF s <> []
  /\ Forall (fun piece => no_LF piece = true) (split_LF s)
  /\ join_empty (split_LF s) = remove_LF s.
Proof.
  split; [apply split_LF_nonempty |].
  split; [apply split_LF_no_LF | apply split_LF_join_empty].
Qed.

End MoreSummarizeFacts.

(** ** More on the bullets of a summary *)

Section MoreBulletFacts.
Import JSString Summarize Lines.

Lemma no_LF_trimStart (s : string) : no_LF s = true -> no_LF (trimStart s) = true.
Proof.
  induction s as [| c s IH]; cbn [trimStart]; [trivial |].
  intros Hs. destruct (isWhiteSpace c); [| exact Hs].
  cbn in Hs. apply andb_true_iff in Hs as [_ Hs]. now apply IH.
Qed.

Lemma no_LF_trimEnd (s : string) : no_LF s = true -> no_LF (trimEnd s) = true.
Proof.
  induction s as [| c s IH]; cbn [trimEnd]; [trivial |].
  intros Hs. cbn in Hs. apply andb_true_iff in Hs as [Hc Hs].
  specialize (IH Hs).
  destruct (trimEnd s) as [| c' r].
  - destruct (isWhiteSpace c); [reflexivity |]. cbn. now rewrite Hc.
  - change (no_LF (String c (String c' r)))
      with (negb (Ascii.eqb c LF) && no_LF (String c' r)).
    now rewrite Hc, IH.
Qed.

Lemma strip_bullet_cases (line : string) :
  strip_bullet line = line
  \/ exists rest, trimStart line = String "-"%char rest
                  /\ strip_bullet line = trimStart rest.
Proof.
  unfold strip_bullet.
  destruct (trimStart line) as [| c rest]; [now left |].
  destruct c as [[] [] [] [] [] [] [] []]; try (now left).
  right. exists rest. split; reflexivity.
Qed.

Lemma no_LF_strip_bullet (line : string) :
  no_LF line = true -> no_LF (strip_bullet line) = true.
Proof.
  intros Hline. destruct (strip_bullet_cases line) as [-> | (rest & Hrest & ->)];
    [exact Hline |].
  apply no_LF_trimStart. apply no_LF_trimStart in Hline.
  rewrite Hrest in Hline. cbn in Hline. exact Hline.
Qed.

Lemma trimEnd_idempotent (s : string) : trimEnd (trimEnd s) = trimEnd s.
Proof.
  induction s as [| c s IH]; [reflexivity |]. cbn [trimEnd].
  destruct (trimEnd s) as [| c' r] eqn:E.
  - destruct (isWhiteSpace c) eqn:Ec; [reflexivity |]. cbn. now rewrite Ec.
  - cbn [trimEnd]. cbn [trimEnd] in IH. now rewrite IH.
Qed.

(** What [trimStart] leaves is empty or starts with a character that is
    no white space. *)
Lemma trimStart_head (s : string) :
  trimStart s = EmptyString
  \/ exists c r, trimStart s = String c r /\ isWhiteSpace c = false.
Proof.
  induction s as [| c s IH]; cbn [trimStart]; [now left |].
  destruct (isWhiteSpace c) eqn:Ec; [exact IH |].
  right. now exists c, s.
Qed.

Lemma trim_idempotent (s : string) : trim (trim s) = trim s.
Proof.
  unfold trim. destruct (trimStart_head s) as [-> | (c & r & -> & Hc)];
    [reflexivity |].
  assert (Hhead : trimStart (trimEnd (String c r)) = trimEnd (String c r)).
  { cbn [trimEnd]. destruct (trimEnd r); rewrite ?Hc; cbn; now rewrite Hc. }
  rewrite Hhead. apply trimEnd_idempotent.
Qed.

(** X18: every item the bullet branch puts in a [<li>] is plain: not
    empty, on one line, without white space at either end, whatever the
    text of the summary. *)
Theorem bullet_items_are_plain (summaryRaw : string) :
  Forall plain (bullet_items summaryRaw).
Proof.
  unfold bullet_items. apply Forall_forall. intros item Hitem.
  apply filter_In in Hitem as [Hitem Hne].
  apply in_map_iff in Hitem as (line & <- & Hline).
  pose proof (split_LF_no_LF summaryRaw) as Hlines.
  rewrite Forall_forall in Hlines. specialize (Hlines line Hline).
  repeat split.
  - intros E. rewrite E in Hne. discriminate Hne.
  - unfold trim. now apply no_LF_trimEnd, no_LF_trimStart, no_LF_strip_bullet.
  - apply trim_idempotent.
Qed.

Lemma join_LF_cons (c : ascii) (piece : string) (rest : list string) :
  join_LF (String c piece :: rest) = String c (join_LF (piece :: rest)).
Proof. destruct rest; reflexivity. Qed.

(** X19: for a text in which no two line feeds follow one another, the
    split of the bullet branch is undone by joining the pieces with line
    feeds: it cuts at the line feeds and nowhere else. *)
Theorem split_then_join_is_identity (s : string) :
  single_LFs s = true -> join_LF (split_LF s) = s.
Proof.
  induction s as [| c s IH]; [reflexivity |].
  intros Hs. cbn [split_LF].
  assert (Hs' : single_LFs s = true).
  { cbn [single_LFs] in Hs. destruct s; [reflexivity |].
    now apply andb_true_iff in Hs as [_ ?]. }
  specialize (IH Hs').
  destruct (Ascii.eqb_spec c LF) as [-> | Hc].
  - destruct s as [| c' s']; [reflexivity |].
    cbn [single_LFs] in Hs. rewrite Ascii.eqb_refl in Hs.
    destruct (Ascii.eqb c' LF) eqn:Ec'; [discriminate Hs |].
    pose proof (split_LF_nonempty (String c' s')) as Hne.
    destruct (split_LF (String c' s')) as [| piece rest] eqn:E; [contradiction |].
    change (join_LF (EmptyString :: piece :: rest))
      with (String LF (join_LF (piece :: rest))).
    now rewrite IH.
  - pose proof (split_LF_nonempty s) as Hne.
    destruct (split_LF s) as [| piece rest]; [contradiction |].
    rewrite join_LF_cons. now rewrite IH.
Qed.

End MoreBulletFacts.

(** ** More on [POST /api/tts] *)

Section MoreTTSFacts.
Import JSString TTS.
Context `{Host}.

(** The handler for a text that is a non-empty string, with its answer
    spelled out case by case. *)
Lemma tts_cases (text : string) (env : TtsEnv) (disk : FileSystem) :
  text <> "" ->
  let made := {| dirs := {[cacheDir]} ∪ dirs disk; files := files disk |} in
  let disk1 := if exists_in disk cacheDir then disk else made in
  let failed (e : string) (d : FileSystem) (sent : list UpstreamRequest) :=
    (Some (res_json 500 (JObject [("error", JString "Failed to generate speech");
                                  ("details", JString e)])), d, sent) in
  let holding (content : list Byte.byte) :=
    {| dirs := dirs disk1;
       files := <[cacheFile text := content]> (files disk1) |} in
  post_tts (Some (JString text)) env disk =
    match exists_in disk cacheDir, mkdir_error env with
    | false, Some e => failed e disk []
    | _, _ =>
        if exists_in disk1 (cacheFile text) then
          match files disk1 !! cacheFile text with
          | Some bytes =>
              (Some {| status := 200;
                       headers := audio_headers (Z.of_nat (length bytes));
                       body := BinaryBody bytes |}, disk1, [])
          | None =>
              failed ("ENOENT: no such file, stat '" ++ cacheFile text ++ "'")%string
                disk1 []
          end
        else
          match api env (speech_request text) with
          | Throw e => failed e disk1 [speech_request text]
          | Normal openaiRes =>
              if res_ok openaiRes then
                (Some {| status := 200;
                         headers := audio_headers
                                      (Z.of_nat (length (res_bytes openaiRes)));
                         body := BinaryBody (res_bytes openaiRes) |},
                 match write_error env, write_reached env with
                 | None, _ => holding (res_bytes openaiRes)
                 | Some _, None => disk1
                 | Some _, Some n => holding (take n (res_bytes openaiRes))
                 end,
                 [speech_request text])
              else
                match res_json_body openaiRes with
                | Throw e => failed e disk1 [speech_request text]
                | Normal errorData =>
                    (Some (res_json (res_status openaiRes)
                             (JObject [("error", JString "TTS failed");
                                       ("details", errorData)])),
                     disk1, [speech_request text])
                end
          end
    end.
Proof.
  intros Htext. cbv zeta.
  unfold post_tts. rewrite (tts_string _ _ Htext).
  unfold try_catchIO, mbind, IO_bind, existsSync, mkdirSync, readCached, fetch,
    writeFileSync, liftC, mret, IO_ret.
  cbn [fs sent].
  destruct (exists_in disk cacheDir); cbn [negb fs sent].
  - destruct (exists_in disk (cacheFile text)); cbn [fs sent files].
    + destruct (files disk !! cacheFile text); reflexivity.
    + destruct (api env (speech_request text)) as [r | e];
        cbn [fs sent app]; [| reflexivity].
      destruct (res_ok r); cbn [negb fs sent].
      * destruct (write_error env), (write_reached env); destruct disk; reflexivity.
      * destruct (res_json_body r); reflexivity.
  - destruct (mkdir_error env) as [e |]; cbn [fs sent]; [reflexivity |].
    destruct (exists_in _ (cacheFile text)); cbn [fs sent files].
    + destruct (files disk !! cacheFile text); reflexivity.
    + destruct (api env (speech_request text)) as [r | e];
        cbn [fs sent app]; [| reflexivity].
      destruct (res_ok r); cbn [negb fs sent].
      * destruct (write_error env), (write_reached env); reflexivity.
      * destruct (res_json_body r); reflexivity.
Qed.

(** A text that is absent or falsy is answered 400; nothing else
    happens. *)
Lemma post_tts_falsy (text : option JSON) (env : TtsEnv) (disk : FileSystem) :
  JSValue.ToBoolean text = false ->
  post_tts text env disk
  = (Some (res_json 400 (JObject [("error", JString "Missing text")])), disk, []).
Proof. intros E. unfold post_tts, tts. rewrite E. reflexivity. Qed.

(** A text that is truthy and not a string makes [hash.update] throw:
    the handler gives no answer, and nothing else happens. *)
Lemma post_tts_not_a_string (text : option JSON) (env : TtsEnv)
    (disk : FileSystem) :
  JSValue.ToBoolean text = true ->
  (forall s, text <> Some (JString s)) ->
  post_tts text env disk = (None, disk, []).
Proof.
  intros E Hns. unfold post_tts, tts. rewrite E. cbn [negb].
  destruct text as [[| b | n | s | l | m] |]; try reflexivity.
  now destruct (Hns s).
Qed.

Lemma exists_in_after_mkdir (disk : FileSystem) (text : string) :
  exists_in disk (cacheFile text) = false ->
  exists_in {| dirs := {[cacheDir]} ∪ dirs disk; files := files disk |}
    (cacheFile text) = false.
Proof.
  intros Hfile. destruct (exists_in_false _ _ Hfile) as [Hnd Hnf].
  unfold exists_in. cbn [dirs files]. rewrite Hnf.
  apply orb_false_iff. split; apply bool_decide_eq_false.
  - intros [Hin | Hin]%elem_of_union; [| contradiction].
    apply elem_of_singleton in Hin. now apply cacheFile_neq_cacheDir in Hin.
  - intros [? ?]. discriminate.
Qed.

(** The disk once the handler has looked for its directory. *)
Lemma exists_in_checked_disk (disk : FileSystem) (text : string) :
  exists_in disk (cacheFile text) = false ->
  exists_in (if exists_in disk cacheDir then disk
             else {| dirs := {[cacheDir]} ∪ dirs disk; files := files disk |})
    (cacheFile text) = false.
Proof.
  intros Hfile. destruct (exists_in disk cacheDir); [exact Hfile |].
  now apply exists_in_after_mkdir.
Qed.

(** The directory is there once the handler has looked for it, and a
    file written beside it does not hide it. *)
Lemma cacheDir_after_write (disk : FileSystem) (text : string)
    (content : list Byte.byte) :
  let disk1 := if exists_in disk cacheDir then disk
               else {| dirs := {[cacheDir]} ∪ dirs disk; files := files disk |} in
  exists_in {| dirs := dirs disk1;
               files := <[cacheFile text := content]> (files disk1) |} cacheDir
  = true.
Proof.
  cbv zeta. destruct (exists_in disk cacheDir) eqn:Edir; unfold exists_in;
    cbn [dirs files].
  - rewrite lookup_insert_ne by apply cacheFile_neq_cacheDir. exact Edir.
  - rewrite (bool_decide_eq_true_2 (cacheDir ∈ {[cacheDir]} ∪ dirs disk))
      by (apply elem_of_union; left; now apply elem_of_singleton).
    reflexivity.
Qed.

(** A request for a string leaves every file but the one of its text as
    it was. *)
Lemma tts_frame (text : string) (env : TtsEnv) (disk : FileSystem)
    (p : string) :
  p <> cacheFile text ->
  files (snd (fst (post_tts (Some (JString text)) env disk))) !! p
  = files disk !! p.
Proof.
  intros Hp. destruct text as [| c s].
  - now rewrite post_tts_falsy.
  - rewrite tts_cases by discriminate.
    repeat match goal with
           | |- context [match ?x with _ => _ end] => destruct x
           end; cbn [fst snd files]; trivial;
      now rewrite lookup_insert_ne by congruence.
Qed.

(** A request for a text whose file is in the cache directory. *)
Lemma post_tts_hit (text : string) (env : TtsEnv) (disk : FileSystem)
    (bytes : list Byte.byte) :
  text <> "" ->
  exists_in disk cacheDir = true ->
  files disk !! cacheFile text = Some bytes ->
  post_tts (Some (JString text)) env disk
  = (Some {| status := 200;
             headers := audio_headers (Z.of_nat (length bytes));
             body := BinaryBody bytes |},
     disk, []).
Proof.
  intros Htext Hdir Hfile. rewrite tts_cases by exact Htext.
  rewrite Hdir, (exists_in_file _ _ _ Hfile), Hfile.
  now destruct (mkdir_error env).
Qed.

(** X20: a request is answered unless its text is a truthy value that is
    not a string (a number, [true], an array, an object): the digest is
    taken before the [try], [hash.update] throws for such a value, and
    the handler gives no answer.  Whatever the text, the request makes at
    most one upstream call, adds at most the cache directory to the
    directories, and leaves every file untouched other than the one named
    by the digest of a text that is a string. *)
Theorem tts_touches_only_its_file (text : option JSON) (env : TtsEnv)
    (disk : FileSystem) :
  exists answer disk' sent,
    post_tts text env disk = (answer, disk', sent)
    /\ (answer = None
        <-> JSValue.ToBoolean text = true /\ forall s, text <> Some (JString s))
    /\ (length sent <= 1)%nat
    /\ (dirs disk' = dirs disk \/ dirs disk' = {[cacheDir]} ∪ dirs disk)
    /\ forall p, (forall s, text = Some (JString s) -> p <> cacheFile s) ->
         files disk' !! p = files disk !! p.
Proof.
  destruct (JSValue.ToBoolean text) eqn:Etruthy.
  - assert (Hstring : (exists s, text = Some (JString s) /\ s <> "")
                      \/ forall s, text <> Some (JString s)).
    { destruct text as [[| b | n | s | l | m] |];
        try (right; intros s'; discriminate).
      left. exists s. split; [reflexivity |].
      intros ->. discriminate Etruthy. }
    destruct Hstring as [(s & -> & Hs) | Hns].
    + assert (Hframe := tts_frame s env disk).
      rewrite tts_cases in * by exact Hs.
      repeat match goal with
             | H : context [match ?x with _ => _ end] |- _ => destruct x
             end;
        eexists _, _, _; (split; [reflexivity |]);
        (split; [split; [discriminate | intros [_ Hno]; now destruct (Hno s)] |]);
        cbn [length dirs]; (split; [lia |]); (split; [auto |]);
        intros p Hp; apply Hframe, Hp; reflexivity.
    + rewrite post_tts_not_a_string by assumption.
      eexists _, _, _. split; [reflexivity |].
      split; [split; [intros _; now split | reflexivity] |].
      cbn [length]. split; [lia |]. split; [now left |]. reflexivity.
  - rewrite post_tts_falsy by exact Etruthy.
    eexists _, _, _. split; [reflexivity |].
    split; [split; [discriminate | intros [E _]; discriminate E] |].
    cbn [length]. split; [lia |]. split; [now left |]. reflexivity.
Qed.

(** X21: an upstream error is passed on.  With no file for the text, a
    call answered outside 2xx with a JSON body is answered to the client
    with the same status and that body as [details]; nothing is
    written. *)
Theorem tts_passes_upstream_error_on (text : string) (env : TtsEnv)
    (disk : FileSystem) (openaiRes : FetchResponse) (errorData : JSON) :
  text <> "" ->
  exists_in disk (cacheFile text) = false ->
  exists_in disk cacheDir = true \/ mkdir_error env = None ->
  api env (speech_request text) = Normal openaiRes ->
  res_ok openaiRes = false ->
  res_json_body openaiRes = Normal errorData ->
  exists disk',
    post_tts (Some (JString text)) env disk
    = (Some (res_json (res_status openaiRes)
               (JObject [("error", JString "TTS failed");
                         ("details", errorData)])),
       disk', [speech_request text])
    /\ files disk' = files disk.
Proof.
  intros Htext Hfile Hdir Hapi Hok Hbody.
  rewrite tts_cases by exact Htext.
  rewrite (exists_in_checked_disk _ _ Hfile), Hapi, Hok, Hbody.
  destruct (exists_in disk cacheDir) eqn:Edir.
  - eexists. split; reflexivity.
  - destruct Hdir as [Hdir | ->]; [discriminate |].
    eexists. split; reflexivity.
Qed.

(** X22: a failed write of the cache file is swallowed: the client still
    gets the whole audio with status 200 and the three headers.  What
    stays on the disk depends on where the write failed.  When the file
    could not be opened, no file is there afterwards, and the next
    request for the text calls the upstream API again.  When the write
    failed after the file was opened, the file stays with the bytes that
    reached it, and every later request for the text is answered from
    that file (cut short, or empty) with no upstream call. *)
Theorem tts_write_failure_is_swallowed (text : string) (env : TtsEnv)
    (disk : FileSystem) (openaiRes : FetchResponse) (e : string) :
  text <> "" ->
  exists_in disk (cacheFile text) = false ->
  exists_in disk cacheDir = true \/ mkdir_error env = None ->
  api env (speech_request text) = Normal openaiRes ->
  res_ok openaiRes = true ->
  write_error env = Some e ->
  exists disk',
    post_tts (Some (JString text)) env disk
    = (Some {| status := 200;
               headers := audio_headers (Z.of_nat (length (res_bytes openaiRes)));
               body := BinaryBody (res_bytes openaiRes) |},
       disk', [speech_request text])
    /\ match write_reached env with
       | None =>
           files disk' = files disk
           /\ exists_in disk' (cacheFile text) = false
       | Some n =>
           let left_there := take n (res_bytes openaiRes) in
           files disk' = <[cacheFile text := left_there]> (files disk)
           /\ forall env' : TtsEnv,
                post_tts (Some (JString text)) env' disk'
                = (Some {| status := 200;
                           headers := audio_headers (Z.of_nat (length left_there));
                           body := BinaryBody left_there |},
                   disk', [])
       end.
Proof.
  intros Htext Hfile Hdir Hapi Hok Hwrite.
  rewrite tts_cases by exact Htext.
  rewrite (exists_in_checked_disk _ _ Hfile), Hapi, Hok, Hwrite.
  pose proof (exists_in_checked_disk _ _ Hfile) as Hfile1.
  pose proof (fun content => cacheDir_after_write disk text content) as Hdir1.
  cbv zeta in Hdir1.
  destruct (exists_in disk cacheDir) eqn:Edir.
  - destruct (write_reached env) as [n |]; eexists; (split; [reflexivity |]).
    + cbv zeta. split; [reflexivity |].
      intros env'. apply post_tts_hit;
        [exact Htext | apply Hdir1 | cbn [files]; apply lookup_insert_eq].
    + split; [reflexivity | exact Hfile1].
  - destruct Hdir as [Hdir | Hmk]; [discriminate |]. rewrite Hmk.
    destruct (write_reached env) as [n |]; eexists; (split; [reflexivity |]).
    + cbv zeta. split; [reflexivity |].
      intros env'. apply post_tts_hit;
        [exact Htext | apply Hdir1 | cbn [files]; apply lookup_insert_eq].
    + split; [reflexivity | exact Hfile1].
Qed.

(** X23: when the cache directory is missing and cannot be made, the
    request is answered 500 with the message of the error; the upstream
    API is not called and the disk is as before. *)
Theorem tts_mkdir_failure_is_500 (text : string) (env : TtsEnv)
    (disk : FileSystem) (e : string) :
  text <> "" ->
  exists_in disk cacheDir = false ->
  mkdir_error env = Some e ->
  post_tts (Some (JString text)) env disk
  = (Some (res_json 500 (JObject [("error", JString "Failed to generate speech");
                                  ("details", JString e)])),
     disk, []).
Proof.
  intros Htext Hdir Hmk. rewrite tts_cases by exact Htext.
  now rewrite Hdir, Hmk.
Qed.

(** X24: a call that fails in transport, or an error answer whose body
    is not JSON, ends in the handler's [catch]: the client gets 500 with
    the message of the error (the upstream status is not passed on), and
    nothing is written. *)
Theorem tts_failed_call_is_500 (text : string) (env : TtsEnv)
    (disk : FileSystem) (e : string) :
  text <> "" ->
  exists_in disk (cacheFile text) = false ->
  exists_in disk cacheDir = true \/ mkdir_error env = None ->
  (api env (speech_request text) = Throw e
   \/ exists openaiRes,
        api env (speech_request text) = Normal openaiRes
        /\ res_ok openaiRes = false
        /\ res_json_body openaiRes = Throw e) ->
  exists disk',
    post_tts (Some (JString text)) env disk
    = (Some (res_json 500 (JObject [("error", JString "Failed to generate speech");
                                    ("details", JString e)])),
       disk', [speech_request text])
    /\ files disk' = files disk.
Proof.
  intros Htext Hfile Hdir Hcall.
  rewrite tts_cases by exact Htext.
  rewrite (exists_in_checked_disk _ _ Hfile).
  assert (Hmk : exists_in disk cacheDir = false -> mkdir_error env = None)
    by (intros E; destruct Hdir as [Hdir | Hmk]; congruence).
  destruct Hcall as [Hapi | (r & Hapi & Hok & Hbody)];
    rewrite Hapi, ?Hok, ?Hbody;
    (destruct (exists_in disk cacheDir) eqn:Edir;
     [| rewrite (Hmk eq_refl)]; eexists; split; reflexivity).
Qed.

(** X25: a text whose file is in the cache directory is answered from
    the disk whatever the environment: whether the upstream API is up or
    down, and whether the disk can be written or not, no call is made and
    the disk stays as it is. *)
Theorem tts_cached_text_needs_no_upstream (text : string) (env : TtsEnv)
    (disk : FileSystem) (bytes : list Byte.byte) :
  text <> "" ->
  exists_in disk cacheDir = true ->
  files disk !! cacheFile text = Some bytes ->
  post_tts (Some (JString text)) env disk
  = (Some {| status := 200;
             headers := audio_headers (Z.of_nat (length bytes));
             body := BinaryBody bytes |},
     disk, []).
Proof. apply post_tts_hit. Qed.

Lemma append_cancel_l (s a b : string) : (s ++ a = s ++ b)%string -> a = b.
Proof.
  induction s as [| c s IH]; intros E; [exact E |].
  apply IH. now injection E.
Qed.

Lemma length_append (a b : string) :
  String.length (a ++ b) = (String.length a + String.length b)%nat.
Proof.
  induction a as [| c a IH]; [reflexivity |].
  change (String c a ++ b)%string with (String c (a ++ b)).
  cbn [String.length]. now rewrite IH.
Qed.

Lemma append_cancel_r (a b s : string) : (a ++ s = b ++ s)%string -> a = b.
Proof.
  revert b. induction a as [| c a IH]; intros [| c' b] E.
  - reflexivity.
  - apply (f_equal String.length) in E.
    rewrite !length_append in E. cbn [String.length] in E. lia.
  - apply (f_equal String.length) in E.
    rewrite !length_append in E. cbn [String.length] in E. lia.
  - change (String c (a ++ s) = String c' (b ++ s)) in E.
    injection E as -> E. f_equal. now apply IH.
Qed.

Lemma cacheFile_inj (t1 t2 : string) :
  cacheFile t1 = cacheFile t2 -> sha256_hex t1 = sha256_hex t2.
Proof.
  unfold cacheFile, path_join. cbv zeta. intros E.
  apply append_cancel_l in E.
  change ("/" ++ sha256_hex t1 ++ ".mp3")%string
    with (String "/" (sha256_hex t1 ++ ".mp3")) in E.
  change ("/" ++ sha256_hex t2 ++ ".mp3")%string
    with (String "/" (sha256_hex t2 ++ ".mp3")) in E.
  injection E as E. now apply append_cancel_r in E.
Qed.

(** X26: two texts share a cache file only if they share a digest.  A
    request for one text, whatever becomes of it, leaves the cached audio
    of every text with another digest as it was. *)
Theorem tts_texts_do_not_interfere (t1 t2 : string) (env : TtsEnv)
    (disk : FileSystem) :
  sha256_hex t1 <> sha256_hex t2 ->
  cacheFile t1 <> cacheFile t2
  /\ files (snd (fst (post_tts (Some (JString t1)) env disk))) !! cacheFile t2
     = files disk !! cacheFile t2.
Proof.
  intros Hsha.
  assert (Hne : cacheFile t1 <> cacheFile t2)
    by (intros E; apply Hsha; now apply cacheFile_inj).
  split; [exact Hne |].
  apply tts_frame. intros E. apply Hne. symmetry. exact E.
Qed.

End MoreTTSFacts.

(** ** The further properties on the sample hosts *)

Section FurtherOnTheSampleHost.
Import ES Date Fetcher Scheduler News Server Summarize Lines TTS Sample MoreSamples.
#[local] Existing Instance winterHost.

Lemma equal_dates_keep_fetch_order_witness :
  let env := fetch_at at_0705 (one_feed [dated_item; older_item; dated_twin]) in
  let dated_article :=
    {| headline := "Dated"; summary := "snippet";
       date := "2025-01-15T12:00:00.000Z";
       link := "https://digiday.com/dated"; source := "Digiday" |} in
  let twin := {| headline := "Twin"; summary := "of the same instant";
                 date := "2025-01-15T12:00:00.000Z";
                 link := "https://digiday.com/twin"; source := "Digiday" |} in
  Forall parseable (fetched (parseURL env) FEEDS)
  /\ dated (Some 1736942400000) (fetched (parseURL env) FEEDS) = [dated_article; twin]
  /\ dated (Some 1736942400000) (articles (fetchRSSFeeds env initial_cache))
     = [dated_article; twin].
Proof.
  cbv zeta.
  assert (Hp : Forall parseable
    (fetched (parseURL (fetch_at at_0705
       (one_feed [dated_item; older_item; dated_twin]))) FEEDS)).
  { vm_compute fetched. repeat constructor; vm_compute; discriminate. }
  split; [exact Hp |].
  split; [vm_compute; reflexivity |].
  rewrite (equal_dates_keep_fetch_order _ initial_cache 1736942400000 Hp).
  vm_compute. reflexivity.
Defined.

Lemma undated_articles_keep_fetch_order_witness :
  let env := fetch_at at_0705 (one_feed [undated_item; bare_item]) in
  let undated := {| headline := "Undated"; summary := "summary"; date := "";
                    link := "https://digiday.com/undated"; source := "Digiday" |} in
  let bare := {| headline := ""; summary := ""; date := "";
                 link := "https://digiday.com/bare"; source := "Digiday" |} in
  Forall (fun a => Date_parse (date a) = None) (fetched (parseURL env) FEEDS)
  /\ fetched (parseURL env) FEEDS = [undated; bare]
  /\ articles (fetchRSSFeeds env initial_cache) = [undated; bare].
Proof.
  cbv zeta.
  assert (Hn : Forall (fun a => Date_parse (date a) = None)
    (fetched (parseURL (fetch_at at_0705 (one_feed [undated_item; bare_item]))) FEEDS)).
  { vm_compute fetched. repeat constructor. }
  split; [exact Hn |].
  split; [vm_compute; reflexivity |].
  rewrite (undated_articles_keep_fetch_order _ initial_cache Hn).
  vm_compute. reflexivity.
Defined.

Lemma cached_articles_come_from_the_feeds_witness :
  let env := fetch_at at_0705 (one_feed [dated_item]) in
  let a := toArticle {| feed_title := Some "Digiday"; feed_items := Some [dated_item] |}
             dated_item in
  In a (articles (fetchRSSFeeds env initial_cache))
  /\ exists url feed item,
       In url FEEDS /\ parseURL env url = Normal feed
       /\ In item (default [] (feed_items feed))
       /\ a = toArticle feed item.
Proof.
  cbv zeta.
  assert (Hin : In (toArticle {| feed_title := Some "Digiday";
                                 feed_items := Some [dated_item] |} dated_item)
                   (articles (fetchRSSFeeds (fetch_at at_0705 (one_feed [dated_item]))
                                initial_cache)))
    by (vm_compute; left; reflexivity).
  split; [exact Hin |].
  exact (cached_articles_come_from_the_feeds _ _ _ Hin).
Defined.

(** On the server in New York, an hour after its clocks went back: as
    an instant 3:10 still lies in daylight time, as a local time it does
    not. *)
Lemma estTime_reads_the_new_york_clock_witness :
  let now := at_nov2_0310 in
  @on_the_clock newYorkHost
    (msPerSecond * ((now + @offsetNewYork newYorkHost now) / msPerSecond))
  /\ @estTime newYorkHost now = now
  /\ @getHours newYorkHost (@estTime newYorkHost now) = 3
  /\ @getMinutes newYorkHost (@estTime newYorkHost now) = 10
  /\ @toDateString newYorkHost (@estTime newYorkHost now) = "Sun Nov 02 2025".
Proof.
  cbv zeta.
  assert (Hc : @on_the_clock newYorkHost
    (msPerSecond * ((at_nov2_0310 + @offsetNewYork newYorkHost at_nov2_0310)
                    / msPerSecond)))
    by (vm_compute; reflexivity).
  destruct (@estTime_reads_the_new_york_clock newYorkHost at_nov2_0310 Hc)
    as (Hh & Hm & Hd).
  split; [exact Hc |].
  split; [vm_compute; reflexivity |].
  split; [rewrite Hh; vm_compute; reflexivity |].
  split; [rewrite Hm; vm_compute; reflexivity |].
  rewrite Hd. vm_compute. reflexivity.
Defined.

Lemma timer_delay_is_whole_seconds_witness :
  fixed_zone
  /\ timeUntilNextFetch at_0710 = 85800 * msPerSecond
  /\ timeUntilNextFetch at_0710 mod msPerSecond = 0
  /\ msPerSecond <= timeUntilNextFetch at_0710.
Proof.
  split; [exact winterHost_fixed_zone |].
  split; [vm_compute; reflexivity |].
  exact (timer_delay_is_whole_seconds at_0710 winterHost_fixed_zone).
Defined.

Lemma timer_fires_at_seven_witness :
  fixed_zone
  /\ offsetNewYork (at_0710 + timeUntilNextFetch at_0710) = offsetNewYork at_0710
  /\ getHours (estTime (at_0710 + timeUntilNextFetch at_0710)) = 7
  /\ getMinutes (estTime (at_0710 + timeUntilNextFetch at_0710)) = 0
  /\ TimeWithinDay (LocalTime (estTime (at_0710 + timeUntilNextFetch at_0710)))
     = MakeTime 7 0 0 0
  /\ timeUntilNextFetch (at_0710 + timeUntilNextFetch at_0710) = msPerDay.
Proof.
  split; [exact winterHost_fixed_zone |]. split; [reflexivity |].
  exact (timer_fires_at_seven at_0710 winterHost_fixed_zone eq_refl).
Defined.

(** After the fetch cycle of 7:05: at 7:10 of the same morning the
    answer is [true] again, at 10:00 it is [false]. *)
Lemma shouldFetchToday_is_the_hour_alone_witness :
  let cache1 := snd (step (FetchNow (fetch_at at_0705 (one_feed [dated_item])))
                       initial_cache) in
  Reachable cache1
  /\ lastFetchDate cache1 = Some "2025-01-15T12:05:00.000Z"
  /\ shouldFetchToday at_0710 cache1 = true
  /\ shouldFetchToday at_1000 cache1 = false.
Proof.
  cbv zeta.
  assert (Hr : Reachable (snd (step (FetchNow (fetch_at at_0705 (one_feed [dated_item])))
                                 initial_cache)))
    by (apply reach_step, reach_initial).
  split; [exact Hr |]. split; [vm_compute; reflexivity |].
  rewrite (shouldFetchToday_is_the_hour_alone at_0710 _ Hr
             (fixed_zone_on_the_clock _ winterHost_fixed_zone)).
  rewrite (shouldFetchToday_is_the_hour_alone at_1000 _ Hr
             (fixed_zone_on_the_clock _ winterHost_fixed_zone)).
  split; vm_compute; reflexivity.
Defined.

Lemma lastFetch_is_never_null_witness :
  let down := fetch_at at_1030 unreachable in
  let r := res_json 200
             (JObject [("articles", JArray []);
                       ("lastFetch", JString "2025-01-15T15:30:00.000Z");
                       ("cacheStatus", JString "initial fetch")]) in
  Reachable initial_cache
  /\ fst (step (GetNews at_1030 down down) initial_cache) = Some r
  /\ served_lastFetch r <> Some JNull.
Proof.
  cbv zeta.
  assert (Hstep : fst (step (GetNews at_1030 (fetch_at at_1030 unreachable)
                               (fetch_at at_1030 unreachable)) initial_cache)
    = Some (res_json 200
              (JObject [("articles", JArray []);
                        ("lastFetch", JString "2025-01-15T15:30:00.000Z");
                        ("cacheStatus", JString "initial fetch")])))
    by (vm_compute; reflexivity).
  split; [exact reach_initial |]. split; [exact Hstep |].
  exact (lastFetch_is_never_null _ _ _ reach_initial Hstep).
Defined.

Lemma news_served_from_cache_without_fetching_witness :
  let cache1 :=
    fetchRSSFeeds (fetch_at at_0705 (one_feed [dated_item])) initial_cache in
  let down := fetch_at at_1000 unreachable in
  on_the_clock (msPerSecond * ((at_1000 + offsetNewYork at_1000) / msPerSecond))
  /\ HourFromTime (at_1000 + offsetNewYork at_1000) = 10
  /\ articles cache1 <> []
  /\ getNews at_1000 down down cache1
     = (res_json 200 (news_body cache1 "serving cached data"), cache1).
Proof.
  cbv zeta.
  assert (Hc : on_the_clock
    (msPerSecond * ((at_1000 + offsetNewYork at_1000) / msPerSecond)))
    by (vm_compute; reflexivity).
  assert (Hh : HourFromTime (at_1000 + offsetNewYork at_1000) <> 7)
    by (vm_compute; discriminate).
  assert (Hne : articles (fetchRSSFeeds (fetch_at at_0705 (one_feed [dated_item]))
                            initial_cache) <> [])
    by (vm_compute; discriminate).
  split; [exact Hc |]. split; [reflexivity |]. split; [exact Hne |].
  exact (news_served_from_cache_without_fetching at_1000 _ _ _ Hc Hh Hne).
Defined.

Lemma empty_news_means_feeds_were_tried_witness :
  let down := fetch_at at_1030 unreachable in
  served_articles (fst (getNews at_1030 down down initial_cache)) = Some []
  /\ fetched (parseURL down) FEEDS = []
  /\ lastFetchDate (snd (getNews at_1030 down down initial_cache))
     = Some (toISOString (at_new_Date down)).
Proof.
  cbv zeta.
  assert (He : served_articles (fst (getNews at_1030 (fetch_at at_1030 unreachable)
                 (fetch_at at_1030 unreachable) initial_cache)) = Some [])
    by (vm_compute; reflexivity).
  split; [exact He |].
  pose proof (empty_news_means_feeds_were_tried _ _ _ _ He) as (Hf & _ & Hd).
  split; [exact Hf | exact Hd].
Defined.

Lemma summarize_failure_is_500_witness :
  "hello"%string <> ""%string
  /\ fst (summarize (Some "hello") transport_down)
     = res_json 500
         (JObject [("error", JString "Failed to summarize");
                   ("details", JString
                      "request to https://api.openai.com failed, reason: ECONNRESET")]).
Proof.
  assert (Hne : "hello"%string <> ""%string) by discriminate.
  split; [exact Hne |].
  exact (summarize_failure_is_500 "hello" transport_down _ Hne (or_introl eq_refl)).
Defined.

Lemma summarize_ignores_upstream_status_witness :
  res_json_body (chat_ok "- a") = res_json_body (chat_500 "- a")
  /\ summarize (Some "hello") (fun _ => Normal (chat_ok "- a"))
     = summarize (Some "hello") (fun _ => Normal (chat_500 "- a")).
Proof.
  split; [reflexivity |].
  exact (summarize_ignores_upstream_status (Some "hello") _ _ eq_refl).
Defined.

Lemma split_then_join_is_identity_witness :
  let s := ("- a" ++ String JSString.LF "- b")%string in
  single_LFs s = true /\ join_LF (JSString.split_LF s) = s.
Proof.
  cbv zeta. split; [reflexivity |].
  exact (split_then_join_is_identity ("- a" ++ String JSString.LF "- b") eq_refl).
Defined.

Lemma tts_passes_upstream_error_on_witness :
  res_ok rate_limited = false
  /\ exists disk',
       post_tts (Some (JString "hello")) (tts_env rate_limited) empty_disk
       = (Some (res_json 429
                  (JObject [("error", JString "TTS failed");
                            ("details",
                             JObject [("error",
                               JObject [("message", JString "Rate limit reached");
                                        ("type", JString "requests")])])])),
          disk', [speech_request "hello"])
       /\ files disk' = files empty_disk.
Proof.
  split; [reflexivity |].
  assert (Hne : "hello"%string <> ""%string) by discriminate.
  exact (tts_passes_upstream_error_on "hello" (tts_env rate_limited) empty_disk
           rate_limited _ Hne eq_refl (or_intror eq_refl) eq_refl eq_refl eq_refl).
Defined.

(** The disk fills up after the first of the three bytes: the client
    gets the three bytes, the cache keeps one, and the next request,
    with the upstream API down, is answered with that one byte.  In a
    directory where no file may be made the file cannot be opened, and
    nothing is left on the disk. *)
Lemma tts_write_failure_is_swallowed_witness :
  write_error (full_disk_env speech_ok 1)
  = Some "ENOSPC: no space left on device, write"%string
  /\ write_reached (full_disk_env speech_ok 1) = Some 1%nat
  /\ (exists disk',
        post_tts (Some (JString "hello")) (full_disk_env speech_ok 1) empty_disk
        = (Some {| status := 200;
                   headers := audio_headers 3;
                   body := BinaryBody hello_audio |},
           disk', [speech_request "hello"])
        /\ files disk' = <[cacheFile "hello" := [Byte.x49]]> ∅
        /\ post_tts (Some (JString "hello")) down_env disk'
           = (Some {| status := 200;
                      headers := audio_headers 1;
                      body := BinaryBody [Byte.x49] |},
              disk', []))
  /\ write_reached (no_access_env speech_ok) = None
  /\ exists disk',
       post_tts (Some (JString "hello")) (no_access_env speech_ok) empty_disk
       = (Some {| status := 200;
                  headers := audio_headers 3;
                  body := BinaryBody hello_audio |},
          disk', [speech_request "hello"])
       /\ files disk' = ∅
       /\ exists_in disk' (cacheFile "hello") = false.
Proof.
  split; [reflexivity |]. split; [reflexivity |].
  assert (Hne : "hello"%string <> ""%string) by discriminate.
  split.
  - destruct (tts_write_failure_is_swallowed "hello" (full_disk_env speech_ok 1)
                empty_disk speech_ok _ Hne eq_refl (or_intror eq_refl) eq_refl eq_refl
                eq_refl) as (disk' & Hfirst & Hleft).
    cbn [write_reached full_disk_env] in Hleft. cbv zeta in Hleft.
    destruct Hleft as [Hfiles Hnext].
    exists disk'. split; [exact Hfirst |]. split; [exact Hfiles |].
    exact (Hnext down_env).
  - split; [reflexivity |].
    destruct (tts_write_failure_is_swallowed "hello" (no_access_env speech_ok)
                empty_disk speech_ok _ Hne eq_refl (or_intror eq_refl) eq_refl eq_refl
                eq_refl) as (disk' & Hfirst & Hleft).
    cbn [write_reached no_access_env] in Hleft.
    exists disk'. split; [exact Hfirst | exact Hleft].
Defined.

Lemma tts_mkdir_failure_is_500_witness :
  exists_in empty_disk cacheDir = false
  /\ post_tts (Some (JString "hello")) (read_only_env speech_ok) empty_disk
     = (Some (res_json 500
                (JObject [("error", JString "Failed to generate speech");
                          ("details", JString
                             "EROFS: read-only file system, mkdir '/app/tts_cache'")])),
        empty_disk, []).
Proof.
  split; [reflexivity |].
  assert (Hne : "hello"%string <> ""%string) by discriminate.
  exact (tts_mkdir_failure_is_500 "hello" (read_only_env speech_ok) empty_disk _
           Hne eq_refl eq_refl).
Defined.

Lemma tts_failed_call_is_500_witness :
  api down_env (speech_request "hello")
  = Throw "request to https://api.openai.com failed, reason: ECONNRESET"
  /\ exists disk',
       post_tts (Some (JString "hello")) down_env empty_disk
       = (Some (res_json 500
                  (JObject [("error", JString "Failed to generate speech");
                            ("details", JString
                               "request to https://api.openai.com failed, reason: ECONNRESET")])),
          disk', [speech_request "hello"])
       /\ files disk' = files empty_disk.
Proof.
  split; [reflexivity |].
  assert (Hne : "hello"%string <> ""%string) by discriminate.
  exact (tts_failed_call_is_500 "hello" down_env empty_disk _ Hne eq_refl
           (or_intror eq_refl) (or_introl eq_refl)).
Defined.

Lemma tts_cached_text_needs_no_upstream_witness :
  files warm_disk !! cacheFile "hello" = Some hello_audio
  /\ post_tts (Some (JString "hello")) down_env warm_disk
     = (Some {| status := 200;
                headers := audio_headers 3;
                body := BinaryBody hello_audio |},
        warm_disk, []).
Proof.
  assert (Hfile : files warm_disk !! cacheFile "hello" = Some hello_audio)
    by (vm_compute; reflexivity).
  assert (Hdir : exists_in warm_disk cacheDir = true) by (vm_compute; reflexivity).
  assert (Hne : "hello"%string <> ""%string) by discriminate.
  split; [exact Hfile |].
  exact (tts_cached_text_needs_no_upstream "hello" down_env warm_disk _
           Hne Hdir Hfile).
Defined.

Lemma tts_texts_do_not_interfere_witness :
  @sha256_hex digestHost "world" <> @sha256_hex digestHost "hello"
  /\ files (snd (fst (@post_tts digestHost (Some (JString "world"))
                        (tts_env speech_ok) warm_disk)))
       !! @cacheFile digestHost "hello"
     = files warm_disk !! @cacheFile digestHost "hello".
Proof.
  assert (Hsha : @sha256_hex digestHost "world" <> @sha256_hex digestHost "hello")
    by (vm_compute; discriminate).
  split; [exact Hsha |].
  exact (proj2 (@tts_texts_do_not_interfere digestHost "world" "hello"
                  (tts_env speech_ok) warm_disk Hsha)).
Defined.

End FurtherOnTheSampleHost.
